(** * poly2: trait grids, distribution builders, dispersal kernel,
      fungicide models, ODE driver and configuration objects

    A shallow embedding of [poly2/utils.py] and [poly2/config.py].

    Numbers.  Python floats are modelled by the reals [R] wherever the code
    only ever sees finite values, and by [npfloat] (a real, an infinity or
    NaN) where the code can meet [np.inf] or [np.nan].  Rounding is not
    modelled: every statement below is about exact arithmetic.

    Exceptions.  A function that can raise returns a [result]. *)

From Stdlib Require Import Reals Lra Lia ZArith.
From stdpp Require Import gmap strings list.
From stdpp Require Import pretty sorting.

#[local] Open Scope R_scope.

(** ** Python exceptions *)

Inductive exn : Type :=
  | RuntimeError
  | AttributeError
  | IndexError
  | ZeroDivisionError
  | ValueError
  | AssertionError
  | TypeError.

Inductive result (A : Type) : Type :=
  | Ok (a : A)
  | Raise (e : exn).

Arguments Ok {A} a.
Arguments Raise {A} e.

#[global] Instance result_ret : MRet result := fun _ a => Ok a.
#[global] Instance result_bind : MBind result := fun _ _ k m =>
  match m with
  | Ok a => k a
  | Raise e => Raise e
  end.

(** ** Comparisons on floats *)

#[local] Instance Rlt_decision (x y : R) : Decision (x < y) := Rlt_dec x y.
#[local] Instance Rle_decision (x y : R) : Decision (x <= y) := Rle_dec x y.
#[local] Instance Rgt_decision (x y : R) : Decision (x > y) := Rgt_dec x y.
#[local] Instance Req_decision : EqDecision R := Req_dec_T.

(** ** numpy helpers *)

(** The builtin [sum] applied to an array: [0 + a0 + a1 + ...]. *)
Definition py_sum (l : list R) : R := fold_left Rplus l 0.

(** [np.linspace(start, stop, num)] with [endpoint=True]: the points
    [arange(num) * step + start], where [step = (stop - start) / (num - 1)],
    and the last point overwritten by [stop] when [num > 1].  With
    [num = 1] numpy has no step and returns [[start]]. *)
Definition linspace (start stop : R) (num : nat) : list R :=
  let div := (num - 1)%nat in
  let delta := stop - start in
  let y := map INR (seq 0 num) in
  let y :=
    if (0 <? div)%nat
    then map (fun v => v * (delta / INR div)) y
    else map (fun v => v * delta) y in
  let y := map (fun v => v + start) y in
  if (1 <? num)%nat then <[(num - 1)%nat := stop]> y else y.

(** [np.diff(a)]: the differences [a[i+1] - a[i]]. *)
Fixpoint np_diff (a : list R) : list R :=
  match a with
  | x :: (y :: _) as rest => (y - x) :: np_diff rest
  | _ => []
  end.


(** ** Trait discretisation *)

Definition edge_values (n : nat) : list R := linspace 0 1 (n + 1).

(** [edge_vals[1]] does not exist for [n = 0]: the subscript raises. *)
Definition trait_vec (n : nat) : result (list R) :=
  let edge_vals := edge_values n in
  match edge_vals !! 1%nat, edge_vals !! 0%nat with
  | Some e1, Some e0 =>
      let dx := 0.5 * (e1 - e0) in
      Ok (linspace dx (1 - dx) n)
  | _, _ => Raise IndexError
  end.

(** ** Floats that may be infinite or NaN

    IEEE values as numpy sees them, without rounding and without the sign
    of zero (a zero divisor counts as [+0]). *)

Inductive npfloat : Type :=
  | Fin (r : R)
  | PInf
  | NInf
  | NaN.

#[global] Instance npfloat_inhabited : Inhabited npfloat := populate NaN.

Definition isnan (x : npfloat) : bool :=
  match x with NaN => true | _ => false end.

Definition fneg (x : npfloat) : npfloat :=
  match x with
  | Fin r => Fin (- r)
  | PInf => NInf
  | NInf => PInf
  | NaN => NaN
  end.

Definition fadd (x y : npfloat) : npfloat :=
  match x, y with
  | NaN, _ | _, NaN => NaN
  | Fin a, Fin b => Fin (a + b)
  | PInf, NInf | NInf, PInf => NaN
  | PInf, _ | _, PInf => PInf
  | NInf, _ | _, NInf => NInf
  end.

Definition fsub (x y : npfloat) : npfloat := fadd x (fneg y).

Definition fdiv (x y : npfloat) : npfloat :=
  match x, y with
  | NaN, _ | _, NaN => NaN
  | Fin a, Fin b =>
      if decide (b = 0)
      then (if decide (a = 0) then NaN else if decide (0 < a) then PInf else NInf)
      else Fin (a / b)
  | Fin _, (PInf | NInf) => Fin 0
  | (PInf | NInf), (PInf | NInf) => NaN
  | PInf, Fin b => if decide (0 <= b) then PInf else NInf
  | NInf, Fin b => if decide (0 <= b) then NInf else PInf
  end.

(** [x <= y] on floats; every comparison with NaN is false. *)
Definition fle (x y : npfloat) : bool :=
  match x, y with
  | NaN, _ | _, NaN => false
  | NInf, _ | _, PInf => true
  | Fin a, Fin b => bool_decide (a <= b)
  | _, _ => false
  end.

Definition flt (x y : npfloat) : bool :=
  match x, y with
  | NaN, _ | _, NaN => false
  | Fin a, Fin b => bool_decide (a < b)
  | PInf, _ | _, NInf => false
  | _, _ => true
  end.

(** [np.log]: [-inf] at zero and NaN below it (numpy warns, it does not
    raise). *)
Definition flog (x : npfloat) : npfloat :=
  match x with
  | Fin r => if decide (0 < r) then Fin (ln r) else if decide (r = 0) then NInf else NaN
  | PInf => PInf
  | NInf | NaN => NaN
  end.

(** The builtin [sum] on an array of floats. *)
Definition np_sum (l : list npfloat) : npfloat := fold_left fadd l (Fin 0).

(** Python's [x / y] on two Python floats. *)
Definition py_div (x y : R) : result R :=
  if decide (y = 0) then Raise ZeroDivisionError else Ok (x / y).

(** ** scipy.stats

    [rv_continuous.cdf(x, *shapes, loc, scale)].  scipy standardises
    [x] to [(x - loc) / scale], fills the output with the distribution's
    bad value, NaN, where the shape arguments fail [_argcheck], the scale
    is not positive or [x] is NaN, with 1 at and above the upper end [b_]
    of the support, with 0 at and below its lower end [a_], and calls the
    distribution's own [_cdf] only strictly inside the support. *)
Definition rv_cdf (argcheck : bool) (a_ : R) (b_ : npfloat) (_cdf : R -> R)
    (loc scale : R) (x : npfloat) : npfloat :=
  let z := fdiv (fsub x (Fin loc)) (Fin scale) in
  let cond0 := argcheck && bool_decide (0 < scale) in
  if negb cond0 || isnan z then NaN
  else if fle b_ z then Fin 1
  else if flt (Fin a_) z
       then match z with Fin r => Fin (_cdf r) | _ => Fin 0 end
       else Fin 0.

(** ** Distribution builders *)

Definition normalise (dist : list npfloat) : list npfloat :=
  let sum_of_dist := np_sum dist in
  map (fun d => fdiv d sum_of_dist) dist.

Section distributions.

(** The special functions behind the two distributions: the regularised
    incomplete beta function [betainc a b x] and the regularised lower
    incomplete gamma function [gammainc a x]. *)
Variable betainc : R -> R -> R -> R.
Variable gammainc : R -> R -> R.

(** [beta.cdf(x, a, b)]: support [[0, 1]], shapes valid when both are
    positive. *)
Definition beta_cdf (x : npfloat) (a b : R) : npfloat :=
  rv_cdf (bool_decide (0 < a) && bool_decide (0 < b)) 0 (Fin 1)
    (betainc a b) 0 1 x.

(** [gamma.cdf(x, a, scale=s)]: support [[0, inf)], shape valid when
    positive. *)
Definition gamma_cdf (x : npfloat) (a scale : R) : npfloat :=
  rv_cdf (bool_decide (0 < a)) 0 PInf (gammainc a) 0 scale x.

(** [1/b] is evaluated inside the comprehension, once per bin. *)
Definition gamma_dist (n : nat) (a b : R) : result (list npfloat) :=
  let edge_vals := edge_values n in
  let curvature_edge_vals :=
    PInf :: map (fun e => flog (fdiv (Fin 1) (Fin e))) (drop 1 edge_vals) in
  dist ← mapM (fun i : nat =>
      s1 ← py_div 1 b;
      s2 ← py_div 1 b;
      Ok (fsub (gamma_cdf (curvature_edge_vals !!! i) a s1)
               (gamma_cdf (curvature_edge_vals !!! (i + 1)%nat) a s2)))
    (seq 0 (length curvature_edge_vals - 1));
  Ok (normalise dist).

Definition beta_dist (n : nat) (a b : R) : list npfloat :=
  let edge_vals := map Fin (edge_values n) in
  let dist := map (fun i : nat =>
      fsub (beta_cdf (edge_vals !!! (i + 1)%nat) a b)
           (beta_cdf (edge_vals !!! i) a b))
    (seq 0 (length edge_vals - 1)) in
  normalise dist.

End distributions.

(** [signal.unit_impulse(N, idx)]: zeros with a one at [idx]; numpy wraps
    a negative index once and raises outside [-N <= idx < N]. *)
Definition unit_impulse (N : nat) (idx : Z) : result (list R) :=
  if decide (0 <= idx < Z.of_nat N)%Z
  then Ok (<[Z.to_nat idx := 1]> (replicate N 0))
  else if decide (- Z.of_nat N <= idx < 0)%Z
  then Ok (<[Z.to_nat (Z.of_nat N + idx) := 1]> (replicate N 0))
  else Raise IndexError.


(** ** Subscripts

    [a[i]], [a[-1]] and [a[i] += v] on a list or a one-dimensional array;
    each raises [IndexError] outside the array. *)

Definition getitem {A : Type} (a : list A) (i : nat) : result A :=
  match a !! i with
  | Some x => Ok x
  | None => Raise IndexError
  end.

Definition getitem_last {A : Type} (a : list A) : result A :=
  match last a with
  | Some x => Ok x
  | None => Raise IndexError
  end.

Definition iadd_item (a : list R) (i : nat) (v : R) : result (list R) :=
  match a !! i with
  | Some x => Ok (<[i := x + v]> a)
  | None => Raise IndexError
  end.

Definition iadd_last (a : list R) (v : R) : result (list R) :=
  match last a with
  | Some x => Ok (<[(length a - 1)%nat := x + v]> a)
  | None => Raise IndexError
  end.

(** ** Dispersal kernel

    The kernel is modelled on finite reals, for a positive mutation
    scale, where [norm.cdf(x, loc, scale)] is the standard normal
    distribution function [ndtr] at [(x - loc) / scale] and
    [mut_scale**0.5] is the square root. *)

Section kernel.

Variable ndtr : R -> R.

Definition norm_cdf (x loc scale : R) : R := ndtr ((x - loc) / scale).

Definition dispersal (vec : list R) (parent_index : nat) (mut_scale : R)
    : result (list R) :=
  let stan_dev := sqrt mut_scale in
  let edges := edge_values (length vec) in
  loc ← getitem vec parent_index;
  let disp := map (fun e => norm_cdf e loc stan_dev) edges in
  let dispersing := np_diff disp in
  d_last ← getitem_last disp;
  let top := 1 - d_last in
  bottom ← getitem disp 0;
  dispersing ← iadd_item dispersing 0 bottom;
  dispersing ← iadd_last dispersing top;
  Ok dispersing.

(** A matrix is the list of its rows.  [kernel[:, j] = col]. *)
Definition set_column (kernel : list (list R)) (j : nat) (col : list R)
    : list (list R) :=
  zip_with (fun row x => <[j := x]> row) kernel col.

Definition column (kernel : list (list R)) (j : nat) : list R :=
  omap (fun row : list R => row !! j) kernel.

(** The body of the loop over [parent], run for the parents in
    [parents]. *)
Fixpoint kernel_loop (vec : list R) (p mutation_scale : R)
    (parents : list nat) (kernel : list (list R)) : result (list (list R)) :=
  match parents with
  | [] => Ok kernel
  | parent :: rest =>
      let N := length vec in
      not_dispersing ← unit_impulse N (Z.of_nat parent);
      dispersing ← dispersal vec parent mutation_scale;
      let col := zip_with Rplus (map (Rmult p) dispersing)
                                (map (Rmult (1 - p)) not_dispersing) in
      kernel_loop vec p mutation_scale rest (set_column kernel parent col)
  end.

Definition get_dispersal_kernel (vec : list R) (p mutation_scale : R)
    : result (list (list R)) :=
  let N := length vec in
  let kernel := replicate N (replicate N 0) in
  kernel_loop vec p mutation_scale (seq 0 N) kernel.

End kernel.

(** ** Model parameters

    The fields of [poly2.params.PARAMS] that the functions below read. *)

Record PARAMS_t : Type := {
  T_1 : R;
  T_2 : R;
  T_3 : R;
  T_end : R;
  host_growth_initial_area : R;
  host_growth_rate : R
}.

(** ** Epidemic ODE *)

(** [scipy.integrate.ode]: the state of the solver object. *)
Record ode_solver : Type := {
  ode_y : R * R;
  ode_t : R;
  ode_success : bool
}.

Definition fmul (x y : npfloat) : npfloat :=
  match x, y with
  | NaN, _ | _, NaN => NaN
  | Fin a, Fin b => Fin (a * b)
  | Fin a, PInf | PInf, Fin a =>
      if decide (a = 0) then NaN else if decide (0 < a) then PInf else NInf
  | Fin a, NInf | NInf, Fin a =>
      if decide (a = 0) then NaN else if decide (0 < a) then NInf else PInf
  | PInf, PInf | NInf, NInf => PInf
  | PInf, NInf | NInf, PInf => NaN
  end.

(** What [find_beta] prints. *)
Inductive printed : Type :=
  | warn_final_sev (final_sev : R)
  | warn_beta (x : npfloat) (final_sev : R).

(** [scipy.optimize.OptimizeResult]: the fields [find_beta] reads. *)
Record OptimizeResult : Type := {
  opt_x0 : npfloat;
  opt_success : bool
}.

Section ode.

Variable PARAMS : PARAMS_t.
Variable DEFAULT_I0 : R.

(** The [dopri5] integrator behind [solver.integrate]: from the right
    hand side, the state, the current time and the target time it gives
    the new state, the time reached and whether it succeeded. *)
Variable dopri5 :
  (R -> R * R -> R * R) -> R * R -> R -> R -> (R * R) * R * bool.

(** [scipy.optimize.minimize(fun, [x0], bounds=[bds], tol=tol,
    method='Powell')]; an exception of the objective passes through. *)
Variable minimize_powell :
  (R -> result npfloat) -> R -> R * R -> R -> result OptimizeResult.

Definition host_growth_function (t S : R) (y : R * R) : R :=
  let senescence :=
    if decide (t < T_3 PARAMS) then 0
    else 0.005 * ((t - T_3 PARAMS) / (2900 - T_3 PARAMS))
         + 0.1 * exp (- 0.02 * (2900 - t)) in
  let growth := host_growth_rate PARAMS * (1 - (0 + fst y + snd y)) in
  growth - senescence * S.

Definition ode_simple (t : R) (y : R * R) (beta_ : R) : R * R :=
  let S := fst y in
  let I := snd y in
  (host_growth_function t S y - beta_ * S * I, beta_ * S * I).

Definition successful (solver : ode_solver) : bool := ode_success solver.

Definition integrate (beta_ : R) (solver : ode_solver) (tt' : R) : ode_solver :=
  let '(y, t, ok) :=
    dopri5 (fun t y => ode_simple t y beta_) (ode_y solver) (ode_t solver) tt' in
  {| ode_y := y; ode_t := t; ode_success := ode_success solver && ok |}.

(** The [for ind, tt in enumerate(t_out[1:])] loop ([tt'] here); [y_out]
    is the list of the columns of the output array. *)
Fixpoint integrate_loop (beta_ : R) (solver : ode_solver)
    (y_out : list (R * R)) (ind : nat) (ts : list R)
    : result (ode_solver * list (R * R)) :=
  match ts with
  | [] => Ok (solver, y_out)
  | tt' :: ts' =>
      if successful solver
      then integrate_loop beta_ (integrate beta_ solver tt')
             (<[ind := ode_y solver]> y_out) (S ind) ts'
      else Raise RuntimeError
  end.

Definition find_soln_given_beta_and_no_control
    (beta_ : R) (I0 : option R) (t_vals : option (list R))
    : result (list (R * R)) :=
  let I0 := default DEFAULT_I0 I0 in
  let y0 := (host_growth_initial_area PARAMS * (1 - I0),
             host_growth_initial_area PARAMS * I0) in
  let t_out :=
    match t_vals with
    | None => linspace (T_1 PARAMS) (T_end PARAMS) 2
    | Some t_vals => t_vals
    end in
  let y_out := replicate (length t_out) (0, 0) in
  t0 ← getitem t_out 0;
  let solver := {| ode_y := y0; ode_t := t0; ode_success := true |} in
  '(solver, y_out) ← integrate_loop beta_ solver y_out 0 (drop 1 t_out);
  Ok (<[(length t_out - 1)%nat := ode_y solver]> y_out).

Definition find_sev_given_beta_and_no_control (beta_ : R) (I0 : option R)
    : result npfloat :=
  y_out ← find_soln_given_beta_and_no_control beta_ I0 None;
  '(final_S, final_I) ← getitem_last y_out;
  Ok (fdiv (Fin final_I) (Fin (final_S + final_I))).

Definition beta_objective (beta_ : R) (final_sev : R) (I0 : option R)
    : result npfloat :=
  F_calculated ← find_sev_given_beta_and_no_control beta_ I0;
  let d := fsub F_calculated (Fin final_sev) in
  Ok (fmul d d).

(** [find_beta] gives what it printed and what it returned or raised. *)
Definition find_beta (final_sev : R) (I0 : option R)
    : list printed * result npfloat :=
  let out1 := if decide (final_sev > 1) then [warn_final_sev final_sev] else [] in
  let INITIAL_GUESS := 0.0078 in
  let bds := (1e-4, 5e-2) in
  match minimize_powell (fun b => beta_objective b final_sev I0)
          INITIAL_GUESS bds 1e-4 with
  | Raise e => (out1, Raise e)
  | Ok min_out =>
      let beta_val := opt_x0 min_out in
      if opt_success min_out && flt beta_val (Fin (snd bds))
         && flt (Fin (fst bds)) beta_val
      then (out1, Ok (opt_x0 min_out))
      else (out1 ++ [warn_beta (opt_x0 min_out) final_sev], Ok NaN)
  end.

End ode.

(** ** Fungicide models

    [math.log] raises [ValueError] outside its domain; overflow of
    [math.exp] is not modelled. *)

Definition py_log (x : R) : result R :=
  if decide (0 < x) then Ok (ln x) else Raise ValueError.

(** The spray schedule as the specification words it, one pure function
    of the spray count: [[T_2]] for one spray, [[T_2, T_3]] for two,
    [[T_1, T_2, T_3]] for three and no spray for any other count.  The
    three classes below are compared with it. *)
Definition spray_schedule (PARAMS : PARAMS_t) (num_sprays : Z) : list R :=
  match num_sprays with
  | 1%Z => [T_2 PARAMS]
  | 2%Z => [T_2 PARAMS; T_3 PARAMS]
  | 3%Z => [T_1 PARAMS; T_2 PARAMS; T_3 PARAMS]
  | _ => []
  end.

(** The earliest time in a schedule, if it has one. *)
Definition first_spray_time (sprays_list : list R) : option R :=
  match sprays_list with
  | [] => None
  | T :: rest => Some (fold_left Rmin rest T)
  end.

Module Fungicide.
Section with_params.

Variable PARAMS : PARAMS_t.
Variable FUNG_DECAY_RATE : R.

Record self_t : Type := {
  decay_rate : R;
  asymptote : R;
  dose : R;
  sprays_list : list R
}.

Definition init (num_sprays : Z) (dose : R) (decay_rate asymptote : option R)
    : self_t :=
  {| decay_rate :=
       match decay_rate with None => FUNG_DECAY_RATE | Some d => d end;
     asymptote := match asymptote with None => 1 | Some w => w end;
     dose := dose;
     sprays_list :=
       if decide (num_sprays = 1%Z) then [T_2 PARAMS]
       else if decide (num_sprays = 2%Z) then [T_2 PARAMS; T_3 PARAMS]
       else if decide (num_sprays = 3%Z)
            then [T_1 PARAMS; T_2 PARAMS; T_3 PARAMS]
       else [] |}.

Definition effect (self : self_t) (value_this_strain t : R) : result R :=
  inv ← py_div 1 value_this_strain;
  curv ← py_log inv;
  let w := asymptote self in
  let concentration :=
    fold_left (fun concentration T_spray =>
        if decide (t > T_spray)
        then concentration + dose self * exp (- decay_rate self * (t - T_spray))
        else concentration)
      (sprays_list self) 0 in
  if decide (concentration = 0) then Ok 1
  else Ok (1 - w + w * exp (- curv * concentration)).

End with_params.
End Fungicide.

Module FungicideAsymptote.
Section with_params.

Variable PARAMS : PARAMS_t.
Variable FUNG_DECAY_RATE : R.

Record self_t : Type := {
  decay_rate : R;
  dose : R;
  curv : R;
  sprays_list : list R
}.

Definition init (num_sprays : Z) (dose curvature : R) (decay_rate : option R)
    : self_t :=
  {| decay_rate :=
       match decay_rate with None => FUNG_DECAY_RATE | Some d => d end;
     dose := dose;
     curv := curvature;
     sprays_list :=
       if decide (num_sprays = 1%Z) then [T_2 PARAMS]
       else if decide (num_sprays = 2%Z) then [T_2 PARAMS; T_3 PARAMS]
       else if decide (num_sprays = 3%Z)
            then [T_1 PARAMS; T_2 PARAMS; T_3 PARAMS]
       else [] |}.

Definition effect (self : self_t) (value_this_strain t : R) : result R :=
  let w := value_this_strain in
  let concentration :=
    fold_left (fun concentration T_spray =>
        if decide (t > T_spray)
        then concentration + dose self * exp (- decay_rate self * (t - T_spray))
        else concentration)
      (sprays_list self) 0 in
  if decide (concentration = 0) then Ok 1
  else Ok (1 - w + w * exp (- curv self * concentration)).

End with_params.
End FungicideAsymptote.

Module FungicideNoDecay.
Section with_params.

Variable PARAMS : PARAMS_t.

Record self_t : Type := {
  dose : R;
  sprays_list : list R
}.

Definition init (num_sprays : Z) (dose : R) : self_t :=
  {| dose := dose;
     sprays_list :=
       if decide (num_sprays = 1%Z) then [T_2 PARAMS]
       else if decide (num_sprays = 2%Z) then [T_2 PARAMS; T_3 PARAMS]
       else if decide (num_sprays = 3%Z)
            then [T_1 PARAMS; T_2 PARAMS; T_3 PARAMS]
       else [] |}.

Definition effect (self : self_t) (value_this_strain t : R) : result R :=
  inv ← py_div 1 value_this_strain;
  curvature_this_strain ← py_log inv;
  let concentration :=
    fold_left (fun concentration T_spray =>
        if bool_decide (t > T_spray) && bool_decide (t < T_spray + 240)
        then dose self
        else concentration)
      (sprays_list self) 0 in
  if decide (concentration = 0) then Ok 1
  else Ok (exp (- curvature_this_strain * concentration)).

End with_params.
End FungicideNoDecay.

(** ** Configuration objects

    A [Config] instance is its attribute dictionary.  The class itself
    only holds the methods, so an attribute that is not in the dictionary
    of the instance is not found. *)

Inductive pyval : Type :=
  | VNone
  | VBool (b : bool)
  | VInt (z : Z)
  | VFloat (r : R)
  | VStr (s : string)
  | VInts (l : list Z)
  | VBools (l : list bool)
  | VArray (a : list R).

(** The constants of [poly2.consts] that [config.py] imports. *)
Record consts_t : Type := {
  ALL_BETAS : pyval;
  DEFAULT_BETA : R;
  DEFAULT_I0 : R;
  DEFAULT_MUTATION_SCALE : R;
  MUTATION_PROP : R
}.

(** A row of [../data/fitted.csv]. *)
Record fit_row : Type := {
  fit_mutation_prop : R;
  fit_mutation_scale_fung : R;
  fit_mutation_scale_host : R;
  fit_trait : string;
  fit_mu : R;
  fit_b : R
}.

(** The arguments of [Config.__init__] after the defaults are filled in. *)
Record Config_args : Type := {
  arg_type : option string;
  arg_sprays : pyval;
  arg_host_on : pyval;
  arg_n_k : Z;
  arg_n_l : Z;
  arg_n_iterations : pyval;
  arg_n_years : nat;
  arg_replace_cultivars : pyval;
  arg_mutation_proportion : R;
  arg_mutation_scale_host : R;
  arg_mutation_scale_fung : R;
  arg_decay_rate : pyval;
  arg_asymptote : pyval;
  arg_dose : option R;
  arg_verbose : bool
}.

(** [np.isclose(a, b)] with its default tolerances. *)
Definition np_isclose (a b : R) : Prop :=
  Rabs (a - b) <= 1e-8 + 1e-5 * Rabs b.

(** [float(series)]: the single element of the series, a [TypeError]
    when the series does not hold exactly one. *)
Definition float_of_series (series : list R) : result R :=
  match series with
  | [x] => Ok x
  | _ => Raise TypeError
  end.

Definition getattr (obj : gmap string pyval) (key : string) : result pyval :=
  match obj !! key with
  | Some v => Ok v
  | None => Raise AttributeError
  end.

(** [delattr(obj, key)] for each key in turn.  The object is changed in
    place: what is returned is the object as the call leaves it, with the
    outcome of the call. *)
Fixpoint delattr_each (keys : list string) (obj : gmap string pyval)
    : gmap string pyval * result () :=
  match keys with
  | [] => (obj, Ok ())
  | key :: rest =>
      match obj !! key with
      | Some _ => delattr_each rest (delete key obj)
      | None => (obj, Raise AttributeError)
      end
  end.

Definition host_attrs : list string :=
  ["n_l"; "host_on"; "replace_cultivars"; "mutation_scale_host"; "l_mu"; "l_b"]%string.

Definition remove_host_attrs_from_config (obj : gmap string pyval)
    : gmap string pyval * result () :=
  delattr_each host_attrs obj.

Module Config.
Section with_consts.

Variable consts : consts_t.

(** The table read from [../data/fitted.csv]. *)
Variable fit : list fit_row.

(** Where both branches of a test assign the same attribute, the
    value is chosen first and assigned once.  What [print_string_repr]
    writes when [verbose] is set is not modelled. *)
Definition init (args : Config_args) : result (gmap string pyval) :=
  let self : gmap string pyval := ∅ in
  let self := <["n_years"%string := VInt (Z.of_nat (arg_n_years args))]> self in
  let self := <["sprays"%string := arg_sprays args]> self in
  let self := <["fungicide_mixture"%string := VBool false]> self in
  let self := <["n_k"%string := VInt (arg_n_k args)]> self in
  let self := <["n_l"%string := VInt (arg_n_l args)]> self in
  let self := <["decay_rate"%string := arg_decay_rate args]> self in
  let self := <["asymptote"%string := arg_asymptote args]> self in
  let ones := replicate (arg_n_years args) 1 in
  let self :=
    <["doses"%string :=
        match arg_dose args with
        | None => VArray ones
        | Some dose => VArray (map (Rmult dose) ones)
        end]> self in
  let self := <["host_on"%string := arg_host_on args]> self in
  let self :=
    <["replace_cultivars"%string :=
        match arg_replace_cultivars args with
        | VBool false => VNone
        | replace_cultivars => replace_cultivars
        end]> self in
  let self :=
    <["mutation_proportion"%string := VFloat (arg_mutation_proportion args)]> self in
  let self :=
    <["mutation_scale_host"%string := VFloat (arg_mutation_scale_host args)]> self in
  let self :=
    <["mutation_scale_fung"%string := VFloat (arg_mutation_scale_fung args)]> self in
  let matching := filter (fun row =>
      np_isclose (fit_mutation_prop row) (arg_mutation_proportion args)
      /\ np_isclose (fit_mutation_scale_fung row) (arg_mutation_scale_fung args)
      /\ np_isclose (fit_mutation_scale_host row) (arg_mutation_scale_host args))
    fit in
  if decide (length matching = 2%nat) then
    let fung := filter (fun row => fit_trait row = "Fungicide"%string) fit in
    let host := filter (fun row => fit_trait row = "Mariboss"%string) fit in
    k_mu ← float_of_series (map fit_mu fung);
    let self := <["k_mu"%string := VFloat k_mu]> self in
    k_b ← float_of_series (map fit_b fung);
    let self := <["k_b"%string := VFloat k_b]> self in
    l_mu ← float_of_series (map fit_mu host);
    let self := <["l_mu"%string := VFloat l_mu]> self in
    l_b ← float_of_series (map fit_b host);
    let self := <["l_b"%string := VFloat l_b]> self in
    let type_ := default "single"%string (arg_type args) in
    let self :=
      <["I0s"%string := VArray (map (Rmult (DEFAULT_I0 consts)) ones)]> self in
    let self :=
      if decide (type_ = "single"%string)
      then <["betas"%string := VArray (map (Rmult (DEFAULT_BETA consts)) ones)]> self
      else if decide (type_ = "multi"%string)
      then <["n_iterations"%string := arg_n_iterations args]>
             (<["beta_multi"%string := ALL_BETAS consts]> self)
      else self in
    Ok self
  else Raise AssertionError.

Definition remove_host_attrs (self : gmap string pyval)
    : gmap string pyval * result () :=
  remove_host_attrs_from_config self.

End with_consts.
End Config.

(** ** What a distribution function is

    The builders are stated for special functions that behave as a
    distribution function on the support: values in [[0, 1]] and
    non-decreasing. *)


(** The value of [beta.cdf] at a finite point, valid shapes. *)
Definition cdf01 (F : R -> R) (e : R) : R :=
  if decide (1 <= e) then 1 else if decide (0 < e) then F e else 0.

(** The value of [gamma.cdf] at a finite point, valid shape and scale. *)
Definition cdf0inf (F : R -> R) (scale c : R) : R :=
  if decide (0 < c / scale) then F (c / scale) else 0.

(** ** Example data

    The calendar of the wheat model, an integrator that fails at once and
    leaves the state where it was, one that always succeeds, and
    optimisers that stop on a given value. *)

Definition PARAMS_wheat : PARAMS_t :=
  {| T_1 := 1456; T_2 := 1700; T_3 := 2066; T_end := 2515;
     host_growth_initial_area := 0.05; host_growth_rate := 0.0126 |}.

Definition dopri5_failing
    : (R -> R * R -> R * R) -> R * R -> R -> R -> (R * R) * R * bool :=
  fun _ y t0 _ => (y, t0, false).

Definition dopri5_frozen
    : (R -> R * R -> R * R) -> R * R -> R -> R -> (R * R) * R * bool :=
  fun _ y _ t1 => (y, t1, true).

(** The special functions at shape 1: the uniform distribution function
    [I_x(1, 1) = x] and the exponential one [P(1, x) = 1 - exp (- x)]. *)
Definition betainc_1_1 : R -> R -> R -> R := fun _ _ x => x.

Definition gammainc_1 : R -> R -> R := fun _ x => 1 - exp (- x).

(** A logistic curve, standing for the normal distribution function. *)
Definition logistic : R -> R := fun z => 1 / (1 + exp (- z)).

(** A fitted table with one row per trait and the configuration of a
    two-year run with one spray and the host protection off. *)
Definition consts_example : consts_t :=
  {| ALL_BETAS := VArray [0.005; 0.0078; 0.01];
     DEFAULT_BETA := 0.0078;
     DEFAULT_I0 := 0.01;
     DEFAULT_MUTATION_SCALE := 0;
     MUTATION_PROP := 0 |}.

Definition fit_example : list fit_row :=
  [ {| fit_mutation_prop := 0; fit_mutation_scale_fung := 0;
       fit_mutation_scale_host := 0; fit_trait := "Fungicide";
       fit_mu := 0.99; fit_b := 0.5 |};
    {| fit_mutation_prop := 0; fit_mutation_scale_fung := 0;
       fit_mutation_scale_host := 0; fit_trait := "Mariboss";
       fit_mu := 0.5; fit_b := 2 |} ].

Definition args_example : Config_args :=
  {| arg_type := None;
     arg_sprays := VInts [1%Z];
     arg_host_on := VBools [false];
     arg_n_k := 50;
     arg_n_l := 50;
     arg_n_iterations := VNone;
     arg_n_years := 2;
     arg_replace_cultivars := VBool false;
     arg_mutation_proportion := 0;
     arg_mutation_scale_host := 0;
     arg_mutation_scale_fung := 0;
     arg_decay_rate := VNone;
     arg_asymptote := VNone;
     arg_dose := Some 1;
     arg_verbose := false |}.

Definition minimize_stops_at (x : npfloat) (success : bool)
    : (R -> result npfloat) -> R -> R * R -> R -> result OptimizeResult :=
  fun _ _ _ _ => Ok {| opt_x0 := x; opt_success := success |}.

(** ** Logit transform *)




(** ** Arithmetic on one-dimensional arrays

    numpy applies a binary operation entry by entry, stretches an array
    of length one to the length of the other and raises [ValueError] when
    the lengths differ otherwise. *)
Definition np_broadcast {A B C : Type} (f : A -> B -> C)
    (a : list A) (b : list B) : result (list C) :=
  if decide (length a = length b) then Ok (zip_with f a b)
  else match a, b with
       | [x], _ => Ok (map (f x) b)
       | _, [y] => Ok (map (fun x => f x y) a)
       | _, _ => Raise ValueError
       end.

(** ** Economics

    The cost and price fields of [PARAMS]. *)
Record PARAMS_econ_t : Type := {
  application_cost_per_spray : R;
  chemical_cost_per_spray : R;
  wheat_price : R
}.

Section economics.

Variable PARAMS_econ : PARAMS_econ_t.

(** [(doses > 0).astype(int)] *)
Definition did_apply (doses : list R) : list R :=
  map (fun d => if decide (d > 0) then 1 else 0) doses.

Definition economic_yield (yield_vec sprays_vec doses : list R)
    : result (list R) :=
  let applied := did_apply doses in
  cost_application ←
    np_broadcast Rmult
      (map (Rmult (application_cost_per_spray PARAMS_econ)) sprays_vec) applied;
  cost_fungicide ←
    np_broadcast Rmult
      (map (Rmult (chemical_cost_per_spray PARAMS_econ)) sprays_vec) doses;
  let revenue := map (Rmult (wheat_price PARAMS_econ)) yield_vec in
  profit ← np_broadcast Rminus revenue cost_application;
  np_broadcast Rminus profit cost_fungicide.

Definition economic_yield_mixture (yield_vec sprays_vec doses_A doses_B : list R)
    : result (list R) :=
  let applied_A := did_apply doses_A in
  let applied_B := did_apply doses_B in
  applied ← np_broadcast Rplus applied_A applied_B;
  let applied := map (fun a => if decide (a > 0) then 1 else a) applied in
  cost_application ←
    np_broadcast Rmult
      (map (Rmult (application_cost_per_spray PARAMS_econ)) sprays_vec) applied;
  doses ← np_broadcast Rplus doses_A doses_B;
  cost_fungicide ←
    np_broadcast Rmult
      (map (Rmult (chemical_cost_per_spray PARAMS_econ)) sprays_vec) doses;
  let revenue := map (Rmult (wheat_price PARAMS_econ)) yield_vec in
  profit ← np_broadcast Rminus revenue cost_application;
  np_broadcast Rminus profit cost_fungicide.

End economics.

(** Division of numpy floats does not raise: see [fdiv]. *)
Definition disease_severity (final_Is final_Ss : list R)
    : result (list npfloat) :=
  total ← np_broadcast Rplus final_Is final_Ss;
  np_broadcast (fun i s => fdiv (Fin i) (Fin s)) final_Is total.


(** ** Mean and variance of the yearly distributions

    [dist] is a two-dimensional array, the list of its rows: one row per
    trait bin, one column per year.  [np.dot] of two vectors raises
    [ValueError] when their lengths differ. *)
Definition np_dot (a b : list R) : result R :=
  if decide (length a = length b) then Ok (py_sum (zip_with Rmult a b))
  else Raise ValueError.

(** [dist.shape[1]] *)
Definition shape1 (dist : list (list R)) : nat :=
  match dist with
  | [] => 0%nat
  | row :: _ => length row
  end.

Definition get_dist_mean (dist : list (list R)) (traitvec : list R)
    : result (list R) :=
  mapM (fun yr => np_dot (column dist yr) traitvec) (seq 0 (shape1 dist)).

(** The inner loop over [dd], for the trait bins in [dds]. *)
Fixpoint variance_loop (dist : list (list R)) (traitvec means : list R)
    (yy : nat) (dds : list nat) (variance : R) : result R :=
  match dds with
  | [] => Ok variance
  | dd :: rest =>
      row ← getitem dist dd;
      d ← getitem row yy;
      x ← getitem traitvec dd;
      m ← getitem means yy;
      variance_loop dist traitvec means yy rest (variance + d * (x - m) ^ 2)
  end.

Definition get_dist_var (dist : list (list R)) (traitvec : list R)
    : result (list R) :=
  means ← get_dist_mean dist traitvec;
  let trait_n := length dist in
  let n_years := shape1 dist in
  mapM (fun yy => variance_loop dist traitvec means yy (seq 0 trait_n) 0)
    (seq 0 n_years).

(** ** Shape parameters from a configuration

    The arithmetic is modelled for attributes that are Python floats, as
    [Config.__init__] stores them; what Python does with operands of
    other types is left to a parameter. *)
Section dist_params.

Variable dynamic_arith : pyval -> pyval -> result (pyval * pyval).



End dist_params.

(** ** Keys of the output dictionary *)

Section keys.

(** [str] of a float, which is not modelled. *)
Variable py_str_float : R -> string.

(** [map(str, v)]: the strings of the items of an iterable. *)
Definition str_items (v : pyval) : result (list string) :=
  match v with
  | VInts l => Ok (map pretty l)
  | VBools l => Ok (map (fun b : bool => if b then "True" else "False")%string l)
  | VArray a => Ok (map py_str_float a)
  | VStr s => Ok (map (fun c => String c EmptyString) (String.list_ascii_of_string s))
  | VNone | VBool _ | VInt _ | VFloat _ => Raise TypeError
  end.

(** The truth values of the items of an iterable. *)
Definition truth_items (v : pyval) : result (list bool) :=
  match v with
  | VInts l => Ok (map (fun z => negb (Z.eqb z 0)) l)
  | VBools l => Ok l
  | VArray a => Ok (map (fun x => negb (bool_decide (x = 0))) a)
  | VStr s => Ok (map (fun _ => true) (String.list_ascii_of_string s))
  | VNone | VBool _ | VInt _ | VFloat _ => Raise TypeError
  end.

Definition keys_from_config (config_in : gmap string pyval)
    : result (list string) :=
  sprays_attr ← getattr config_in "sprays";
  sprays ← str_items sprays_attr;
  host_attr ← getattr config_in "host_on";
  host_truth ← truth_items host_attr;
  let host := map (fun hh : bool => if hh then "Y" else "N")%string host_truth in
  Ok (spray ← sprays;
      host ← host;
      let spray_str := if decide (spray = "0"%string) then "N"%string else spray in
      [("spray_" +:+ spray_str +:+ "_host_" +:+ host)%string]).

End keys.

(** ** Times of the model output *)

(** [sorted] on floats: the sorted list is unique, so any sort will do. *)
Definition get_model_times (PARAMS : PARAMS_t) : list R :=
  let times := linspace (T_1 PARAMS) (T_end PARAMS) 100 in
  let times := times ++ [T_2 PARAMS; T_3 PARAMS] in
  merge_sort Rle times.

(** ** Configuration for the asymptote model

    The keyword arguments of [get_asymptote_config]: those that go on to
    [Config], and the four it looks at itself, each present or not. *)
Record asymptote_kwargs : Type := {
  kw_config : Config_args;
  kw_verbose : option bool;
  kw_k_mu : option pyval;
  kw_k_b : option pyval;
  kw_curvature : option pyval
}.

Definition with_verbose (args : Config_args) (verbose : bool) : Config_args :=
  {| arg_type := arg_type args;
     arg_sprays := arg_sprays args;
     arg_host_on := arg_host_on args;
     arg_n_k := arg_n_k args;
     arg_n_l := arg_n_l args;
     arg_n_iterations := arg_n_iterations args;
     arg_n_years := arg_n_years args;
     arg_replace_cultivars := arg_replace_cultivars args;
     arg_mutation_proportion := arg_mutation_proportion args;
     arg_mutation_scale_host := arg_mutation_scale_host args;
     arg_mutation_scale_fung := arg_mutation_scale_fung args;
     arg_decay_rate := arg_decay_rate args;
     arg_asymptote := arg_asymptote args;
     arg_dose := arg_dose args;
     arg_verbose := verbose |}.

(** What is printed when [verbose] is set is not modelled. *)
Definition get_asymptote_config (consts : consts_t) (fit : list fit_row)
    (kwargs : asymptote_kwargs) : result (gmap string pyval) :=
  let kwargs_for_conf := with_verbose (kw_config kwargs) false in
  cf ← Config.init consts fit kwargs_for_conf;
  let '(cf, removed) := Config.remove_host_attrs cf in
  _ ← removed;
  let '(k_mu, k_b) :=
    match kw_k_mu kwargs, kw_k_b kwargs with
    | Some k_mu, Some k_b => (k_mu, k_b)
    | _, _ => (VFloat 0.99, VFloat 0.5)
    end in
  let curv := default (VInt 10) (kw_curvature kwargs) in
  let cf := <["k_mu"%string := k_mu]> cf in
  let cf := <["k_b"%string := k_b]> cf in
  let cf := <["curvature"%string := curv]> cf in
  Ok cf.

(** * Proofs *)

(** ** The trait grid *)

Lemma length_linspace (a b : R) (num : nat) : length (linspace a b num) = num.
Proof.
  unfold linspace.
  destruct (1 <? num)%nat, (0 <? num - 1)%nat;
    rewrite ?length_insert, !length_map, length_seq; reflexivity.
Qed.

Lemma linspace_lookup (a b : R) (num i : nat) :
  (2 <= num)%nat -> (i < num)%nat ->
  linspace a b num !! i = Some (a + INR i * ((b - a) / INR (num - 1))).
Proof.
  intros Hnum Hi. unfold linspace.
  assert (H0 : (0 <? num - 1)%nat = true) by (apply Nat.ltb_lt; lia).
  assert (H1 : (1 <? num)%nat = true) by (apply Nat.ltb_lt; lia).
  rewrite H0, H1.
  assert (Hd : INR (num - 1) <> 0) by (apply not_0_INR; lia).
  destruct (decide (i = (num - 1)%nat)) as [->|Hne].
  - rewrite list_lookup_insert_eq
      by (rewrite !length_map, length_seq; lia).
    f_equal. field. exact Hd.
  - rewrite list_lookup_insert_ne by congruence.
    rewrite !list_lookup_fmap, lookup_seq_lt by lia. simpl.
    f_equal. lra.
Qed.

Lemma length_edge_values (n : nat) : length (edge_values n) = (n + 1)%nat.
Proof. apply length_linspace. Qed.

Lemma edge_values_lookup (n i : nat) :
  (1 <= n)%nat -> (i <= n)%nat -> edge_values n !! i = Some (INR i / INR n).
Proof.
  intros Hn Hi. unfold edge_values.
  rewrite linspace_lookup by lia.
  replace (n + 1 - 1)%nat with n by lia.
  f_equal. field. apply not_0_INR. lia.
Qed.

Lemma trait_vec_eq (n : nat) :
  (1 <= n)%nat ->
  trait_vec n = Ok (linspace (1 / (2 * INR n)) (1 - 1 / (2 * INR n)) n).
Proof.
  intros Hn. unfold trait_vec.
  rewrite !edge_values_lookup by lia.
  assert (Hn0 : INR n <> 0) by (apply not_0_INR; lia).
  replace (0.5 * (INR 1 / INR n - INR 0 / INR n)) with (1 / (2 * INR n)).
  - reflexivity.
  - replace 0.5 with (1 / 2) by lra. simpl. field. exact Hn0.
Qed.

Lemma trait_vec_lookup (n i : nat) (vec : list R) :
  trait_vec n = Ok vec -> (i < n)%nat ->
  vec !! i = Some ((2 * INR i + 1) / (2 * INR n)).
Proof.
  intros Hvec Hi. rewrite trait_vec_eq in Hvec by lia.
  injection Hvec as <-.
  assert (Hn0 : INR n <> 0) by (apply not_0_INR; lia).
  destruct (decide (n = 1%nat)) as [->|Hn1].
  - replace i with 0%nat by lia. simpl. f_equal. lra.
  - rewrite linspace_lookup by lia.
    assert (Hd : INR (n - 1) <> 0) by (apply not_0_INR; lia).
    f_equal. rewrite minus_INR in * by lia. simpl in *. field. lra.
Qed.

(** C5.  For every [n >= 1], [trait_vec n] returns a vector of length [n]
    that is strictly increasing and symmetric around 0.5, whose first
    value is [dx] and whose last value is [1 - dx], where [dx = 1/(2n)]
    is half the width of a bin of the [n + 1] equally spaced edge values
    [i/n] on [[0, 1]]. *)
Theorem trait_vec_grid (n : nat) :
  (1 <= n)%nat ->
  exists vec : list R,
    trait_vec n = Ok vec
    /\ length vec = n
    /\ (forall i j x y, (i < j)%nat ->
          vec !! i = Some x -> vec !! j = Some y -> x < y)
    /\ (forall i x y, (i < n)%nat ->
          vec !! i = Some x -> vec !! (n - 1 - i)%nat = Some y ->
          x - 0.5 = 0.5 - y)
    /\ length (edge_values n) = (n + 1)%nat
    /\ (forall i, (i <= n)%nat -> edge_values n !! i = Some (INR i / INR n))
    /\ (forall e0 e1, edge_values n !! 0%nat = Some e0 ->
          edge_values n !! 1%nat = Some e1 -> 0.5 * (e1 - e0) = 1 / (2 * INR n))
    /\ vec !! 0%nat = Some (1 / (2 * INR n))
    /\ last vec = Some (1 - 1 / (2 * INR n)).
Proof.
  intros Hn.
  assert (Hn0 : 0 < INR n) by (apply lt_0_INR; lia).
  destruct (trait_vec n) as [vec|e] eqn:Hvec;
    [|rewrite trait_vec_eq in Hvec by lia; discriminate].
  assert (Hlen : length vec = n).
  { rewrite trait_vec_eq in Hvec by lia. injection Hvec as <-.
    apply length_linspace. }
  exists vec. split; [reflexivity|]. split; [exact Hlen|].
  split; [|split; [|split; [|split; [|split; [|split]]]]].
  - intros i j x y Hij Hi Hj.
    assert (Hjn : (j < n)%nat) by (rewrite <- Hlen; eapply lookup_lt_Some, Hj).
    rewrite (trait_vec_lookup n i vec Hvec) in Hi by lia.
    rewrite (trait_vec_lookup n j vec Hvec) in Hj by lia.
    injection Hi as <-. injection Hj as <-.
    apply Rmult_lt_compat_r; [apply Rinv_0_lt_compat; lra|].
    apply lt_INR in Hij. lra.
  - intros i x y Hin Hi Hj.
    rewrite (trait_vec_lookup n i vec Hvec) in Hi by lia.
    rewrite (trait_vec_lookup n (n - 1 - i) vec Hvec) in Hj by lia.
    injection Hi as <-. injection Hj as <-.
    rewrite !minus_INR by lia. simpl.
    replace 0.5 with (1 / 2) by lra. field. lra.
  - apply length_edge_values.
  - intros i Hi. apply edge_values_lookup; lia.
  - intros e0 e1 H0 H1.
    rewrite edge_values_lookup in H0, H1 by lia.
    injection H0 as <-. injection H1 as <-. simpl.
    replace 0.5 with (1 / 2) by lra. field. lra.
  - rewrite (trait_vec_lookup n 0 vec Hvec) by lia.
    f_equal. simpl. field. lra.
  - rewrite last_lookup, Hlen.
    rewrite (trait_vec_lookup n (pred n) vec Hvec) by lia.
    f_equal. replace (pred n) with (n - 1)%nat by lia.
    rewrite minus_INR by lia. simpl. field. lra.
Qed.

(** At [n = 4] the grid is [1/8, 3/8, 5/8, 7/8]. *)
Lemma trait_vec_grid_witness :
  exists vec : list R,
    trait_vec 4 = Ok vec
    /\ length vec = 4%nat
    /\ (forall i j x y, (i < j)%nat ->
          vec !! i = Some x -> vec !! j = Some y -> x < y)
    /\ (forall i x y, (i < 4)%nat ->
          vec !! i = Some x -> vec !! (4 - 1 - i)%nat = Some y ->
          x - 0.5 = 0.5 - y)
    /\ length (edge_values 4) = (4 + 1)%nat
    /\ (forall i, (i <= 4)%nat -> edge_values 4 !! i = Some (INR i / INR 4))
    /\ (forall e0 e1, edge_values 4 !! 0%nat = Some e0 ->
          edge_values 4 !! 1%nat = Some e1 -> 0.5 * (e1 - e0) = 1 / (2 * INR 4))
    /\ vec !! 0%nat = Some (1 / (2 * INR 4))
    /\ last vec = Some (1 - 1 / (2 * INR 4)).
Proof. apply (trait_vec_grid 4). lia. Defined.

(** ** Fungicide models *)

Lemma fold_Rmin_le_init (l : list R) (T : R) : fold_left Rmin l T <= T.
Proof.
  revert T. induction l as [|x l IH]; intros T; simpl; [lra|].
  etransitivity; [apply IH|]. apply Rmin_l.
Qed.

Lemma fold_Rmin_le_elem (l : list R) (T x : R) :
  x ∈ l -> fold_left Rmin l T <= x.
Proof.
  revert T. induction l as [|y l IH]; intros T Hx; simpl.
  - inversion Hx.
  - apply elem_of_cons in Hx as [->|Hx].
    + etransitivity; [apply fold_Rmin_le_init|]. apply Rmin_r.
    + apply IH, Hx.
Qed.

(** A time at or before the earliest spray is at or before every spray. *)
Lemma before_first_spray_all (sprays : list R) (t : R) :
  (forall T0, first_spray_time sprays = Some T0 -> t <= T0) ->
  Forall (fun T_spray => t <= T_spray) sprays.
Proof.
  intros H. destruct sprays as [|T rest]; [constructor|].
  specialize (H _ eq_refl). simpl in H.
  apply Forall_forall. intros x Hx.
  apply elem_of_cons in Hx as [->|Hx].
  - etransitivity; [exact H|]. apply fold_Rmin_le_init.
  - etransitivity; [exact H|]. apply fold_Rmin_le_elem, Hx.
Qed.

(** The accumulation loops leave the concentration alone while no spray
    has been applied. *)
Lemma decay_loop_before (dose decay_rate t : R) (sprays : list R) (c : R) :
  Forall (fun T_spray => t <= T_spray) sprays ->
  fold_left (fun concentration T_spray =>
      if decide (t > T_spray)
      then concentration + dose * exp (- decay_rate * (t - T_spray))
      else concentration) sprays c = c.
Proof.
  intros H. revert c. induction H as [|T l HT _ IH]; intros c; simpl.
  - reflexivity.
  - rewrite decide_False by lra. apply IH.
Qed.

Lemma window_loop_before (dose t : R) (sprays : list R) (c : R) :
  Forall (fun T_spray => t <= T_spray) sprays ->
  fold_left (fun concentration T_spray =>
      if bool_decide (t > T_spray) && bool_decide (t < T_spray + 240)
      then dose
      else concentration) sprays c = c.
Proof.
  intros H. revert c. induction H as [|T l HT _ IH]; intros c; simpl.
  - reflexivity.
  - rewrite bool_decide_eq_false_2 by lra. apply IH.
Qed.

Lemma Fungicide_effect_before (self : Fungicide.self_t) (value t : R) :
  0 < value ->
  Forall (fun T_spray => t <= T_spray) (Fungicide.sprays_list self) ->
  Fungicide.effect self value t = Ok 1.
Proof.
  intros Hv Hall. unfold Fungicide.effect.
  unfold py_div. rewrite decide_False by lra. simpl.
  unfold py_log. rewrite decide_True by (apply Rdiv_lt_0_compat; lra). simpl.
  rewrite decay_loop_before by exact Hall.
  rewrite decide_True by reflexivity. reflexivity.
Qed.

Lemma FungicideAsymptote_effect_before
    (self : FungicideAsymptote.self_t) (value t : R) :
  Forall (fun T_spray => t <= T_spray) (FungicideAsymptote.sprays_list self) ->
  FungicideAsymptote.effect self value t = Ok 1.
Proof.
  intros Hall. unfold FungicideAsymptote.effect.
  rewrite decay_loop_before by exact Hall.
  rewrite decide_True by reflexivity. reflexivity.
Qed.

Lemma FungicideNoDecay_effect_before
    (self : FungicideNoDecay.self_t) (value t : R) :
  0 < value ->
  Forall (fun T_spray => t <= T_spray) (FungicideNoDecay.sprays_list self) ->
  FungicideNoDecay.effect self value t = Ok 1.
Proof.
  intros Hv Hall. unfold FungicideNoDecay.effect.
  unfold py_div. rewrite decide_False by lra. simpl.
  unfold py_log. rewrite decide_True by (apply Rdiv_lt_0_compat; lra). simpl.
  rewrite window_loop_before by exact Hall.
  rewrite decide_True by reflexivity. reflexivity.
Qed.

Lemma Fungicide_init_sprays PARAMS FDR num_sprays dose decay_rate asymptote :
  Fungicide.sprays_list
    (Fungicide.init PARAMS FDR num_sprays dose decay_rate asymptote)
  = spray_schedule PARAMS num_sprays.
Proof.
  simpl. unfold spray_schedule.
  repeat case_decide; subst; try reflexivity.
  destruct num_sprays as [|[[]|[]|]|]; try reflexivity; lia.
Qed.

Lemma FungicideAsymptote_init_sprays PARAMS FDR num_sprays dose curvature decay_rate :
  FungicideAsymptote.sprays_list
    (FungicideAsymptote.init PARAMS FDR num_sprays dose curvature decay_rate)
  = spray_schedule PARAMS num_sprays.
Proof.
  simpl. unfold spray_schedule.
  repeat case_decide; subst; try reflexivity.
  destruct num_sprays as [|[[]|[]|]|]; try reflexivity; lia.
Qed.

Lemma FungicideNoDecay_init_sprays PARAMS num_sprays dose :
  FungicideNoDecay.sprays_list (FungicideNoDecay.init PARAMS num_sprays dose)
  = spray_schedule PARAMS num_sprays.
Proof.
  simpl. unfold spray_schedule.
  repeat case_decide; subst; try reflexivity.
  destruct num_sprays as [|[[]|[]|]|]; try reflexivity; lia.
Qed.

Lemma spray_schedule_empty PARAMS (num_sprays : Z) :
  (num_sprays = 0 \/ 3 < num_sprays)%Z -> spray_schedule PARAMS num_sprays = [].
Proof.
  intros H. unfold spray_schedule.
  destruct num_sprays as [|[[]|[]|]|]; try reflexivity; lia.
Qed.

(** C10.  For every integer spray count and any other constructor
    arguments, [Fungicide], [FungicideAsymptote] and [FungicideNoDecay]
    build the same spray schedule, the one of [spray_schedule]: [[T_2]]
    for one spray, [[T_2, T_3]] for two, [[T_1, T_2, T_3]] for three and
    the empty list for every other count. *)
Theorem sprays_list_same_in_all_variants
    (PARAMS : PARAMS_t) (FUNG_DECAY_RATE : R) (num_sprays : Z)
    (dose dose' dose'' curvature : R) (decay_rate decay_rate' asymptote : option R) :
  Fungicide.sprays_list
    (Fungicide.init PARAMS FUNG_DECAY_RATE num_sprays dose decay_rate asymptote)
  = spray_schedule PARAMS num_sprays
  /\ FungicideAsymptote.sprays_list
       (FungicideAsymptote.init PARAMS FUNG_DECAY_RATE num_sprays dose'
          curvature decay_rate')
     = spray_schedule PARAMS num_sprays
  /\ FungicideNoDecay.sprays_list
       (FungicideNoDecay.init PARAMS num_sprays dose'')
     = spray_schedule PARAMS num_sprays
  /\ spray_schedule PARAMS 1 = [T_2 PARAMS]
  /\ spray_schedule PARAMS 2 = [T_2 PARAMS; T_3 PARAMS]
  /\ spray_schedule PARAMS 3 = [T_1 PARAMS; T_2 PARAMS; T_3 PARAMS]
  /\ (num_sprays <> 1%Z -> num_sprays <> 2%Z -> num_sprays <> 3%Z ->
      spray_schedule PARAMS num_sprays = []).
Proof.
  split; [apply Fungicide_init_sprays|].
  split; [apply FungicideAsymptote_init_sprays|].
  split; [apply FungicideNoDecay_init_sprays|].
  repeat split.
  intros H1 H2 H3. unfold spray_schedule.
  destruct num_sprays as [|[[]|[]|]|]; try reflexivity; lia.
Qed.

(** C6.  For each of the three fungicide models built from a spray count,
    and every trait value in (0, 1], [effect] returns exactly 1 at any
    time at or before the first scheduled spray time; when the spray
    count is 0 or greater than 3 the schedule is empty and [effect]
    returns 1 at every time. *)
Theorem effect_is_one_before_first_spray
    (PARAMS : PARAMS_t) (FUNG_DECAY_RATE : R) (num_sprays : Z)
    (dose curvature : R) (decay_rate asymptote : option R)
    (value_this_strain : R) :
  0 < value_this_strain <= 1 ->
  let F := Fungicide.init PARAMS FUNG_DECAY_RATE num_sprays dose
             decay_rate asymptote in
  let FA := FungicideAsymptote.init PARAMS FUNG_DECAY_RATE num_sprays dose
              curvature decay_rate in
  let FN := FungicideNoDecay.init PARAMS num_sprays dose in
  (forall t : R,
     (forall T0, first_spray_time (Fungicide.sprays_list F) = Some T0 -> t <= T0) ->
     Fungicide.effect F value_this_strain t = Ok 1)
  /\ (forall t : R,
        (forall T0, first_spray_time (FungicideAsymptote.sprays_list FA) = Some T0 ->
           t <= T0) ->
        FungicideAsymptote.effect FA value_this_strain t = Ok 1)
  /\ (forall t : R,
        (forall T0, first_spray_time (FungicideNoDecay.sprays_list FN) = Some T0 ->
           t <= T0) ->
        FungicideNoDecay.effect FN value_this_strain t = Ok 1)
  /\ ((num_sprays = 0 \/ 3 < num_sprays)%Z ->
      Fungicide.sprays_list F = []
      /\ FungicideAsymptote.sprays_list FA = []
      /\ FungicideNoDecay.sprays_list FN = []
      /\ forall t : R,
           Fungicide.effect F value_this_strain t = Ok 1
           /\ FungicideAsymptote.effect FA value_this_strain t = Ok 1
           /\ FungicideNoDecay.effect FN value_this_strain t = Ok 1).
Proof.
  intros [Hpos _] F FA FN.
  split; [|split; [|split]].
  - intros t Ht. apply Fungicide_effect_before; [exact Hpos|].
    apply before_first_spray_all, Ht.
  - intros t Ht. apply FungicideAsymptote_effect_before.
    apply before_first_spray_all, Ht.
  - intros t Ht. apply FungicideNoDecay_effect_before; [exact Hpos|].
    apply before_first_spray_all, Ht.
  - intros Hnum.
    assert (HF : Fungicide.sprays_list F = []).
    { unfold F. rewrite Fungicide_init_sprays. apply spray_schedule_empty, Hnum. }
    assert (HFA : FungicideAsymptote.sprays_list FA = []).
    { unfold FA. rewrite FungicideAsymptote_init_sprays.
      apply spray_schedule_empty, Hnum. }
    assert (HFN : FungicideNoDecay.sprays_list FN = []).
    { unfold FN. rewrite FungicideNoDecay_init_sprays.
      apply spray_schedule_empty, Hnum. }
    repeat split; try assumption.
    + apply Fungicide_effect_before; [exact Hpos|]. rewrite HF. constructor.
    + apply FungicideAsymptote_effect_before. rewrite HFA. constructor.
    + apply FungicideNoDecay_effect_before; [exact Hpos|]. rewrite HFN. constructor.
Qed.

(** With three sprays the first spray is at [T_1 = 1456]: a strain of
    trait value 0.5 is unaffected at that time in all three models. *)
Lemma effect_is_one_before_first_spray_witness :
  Fungicide.effect (Fungicide.init PARAMS_wheat 0.011 3 1 None None) 0.5 1456 = Ok 1
  /\ FungicideAsymptote.effect
       (FungicideAsymptote.init PARAMS_wheat 0.011 3 1 10 None) 0.5 1456 = Ok 1
  /\ FungicideNoDecay.effect (FungicideNoDecay.init PARAMS_wheat 3 1) 0.5 1456 = Ok 1.
Proof.
  assert (Hv : 0 < 0.5 <= 1) by lra.
  destruct (effect_is_one_before_first_spray PARAMS_wheat 0.011 3 1 10 None None
              0.5 Hv) as (HF & HFA & HFN & _).
  assert (Hmin : forall T0,
    first_spray_time [1456; 1700; 2066] = Some T0 -> 1456 <= T0).
  { intros T0 H. injection H as <-. simpl. unfold Rmin.
    repeat destruct (Rle_dec _ _); lra. }
  split; [apply HF, Hmin|]. split; [apply HFA, Hmin|apply HFN, Hmin].
Defined.

(** ** Sums *)

Lemma fold_left_Rplus_acc (l : list R) (a : R) :
  fold_left Rplus l a = a + fold_left Rplus l 0.
Proof.
  revert a. induction l as [|x l IH]; intros a; simpl.
  - lra.
  - rewrite (IH (a + x)), (IH (0 + x)). lra.
Qed.

Lemma py_sum_nil : py_sum [] = 0.
Proof. reflexivity. Qed.

Lemma py_sum_cons (x : R) (l : list R) : py_sum (x :: l) = x + py_sum l.
Proof.
  unfold py_sum. simpl. rewrite fold_left_Rplus_acc. lra.
Qed.

Lemma py_sum_app (l k : list R) : py_sum (l ++ k) = py_sum l + py_sum k.
Proof.
  induction l as [|x l IH]; simpl.
  - rewrite py_sum_nil. lra.
  - rewrite !py_sum_cons, IH. lra.
Qed.

Lemma py_sum_insert (l : list R) (i : nat) (x y : R) :
  l !! i = Some x -> py_sum (<[i := y]> l) = py_sum l - x + y.
Proof.
  revert i. induction l as [|z l IH]; intros [|i] H; simpl in *; try discriminate.
  - injection H as ->. rewrite !py_sum_cons. lra.
  - rewrite !py_sum_cons, (IH i H). lra.
Qed.




Lemma length_np_diff (a : list R) : length (np_diff a) = (length a - 1)%nat.
Proof.
  induction a as [|x [|y a] IH]; simpl in *; try reflexivity.
  rewrite IH. lia.
Qed.

(** The differences telescope. *)
Lemma py_sum_np_diff (x : R) (a : list R) (l : R) :
  last (x :: a) = Some l -> py_sum (np_diff (x :: a)) = l - x.
Proof.
  revert x. induction a as [|y a IH]; intros x H.
  - simpl in H. injection H as <-. simpl. rewrite py_sum_nil. lra.
  - change (np_diff (x :: y :: a)) with ((y - x) :: np_diff (y :: a)).
    rewrite py_sum_cons, (IH y) by exact H. lra.
Qed.

(** ** Dispersal kernel *)

Lemma unit_impulse_nat (N i : nat) :
  (i < N)%nat -> unit_impulse N (Z.of_nat i) = Ok (<[i := 1]> (replicate N 0)).
Proof.
  intros H. unfold unit_impulse.
  rewrite decide_True by lia. rewrite Nat2Z.id. reflexivity.
Qed.


(** Folding the two tails of the distribution function into the boundary
    bins restores all of the mass. *)
Lemma boundary_fold_sum (disp : list R) :
  (2 <= length disp)%nat ->
  exists dispersing : list R,
    (d_last ← getitem_last disp;
     bottom ← getitem disp 0;
     dispersing ← iadd_item (np_diff disp) 0 bottom;
     dispersing ← iadd_last dispersing (1 - d_last);
     Ok dispersing) = Ok dispersing
    /\ length dispersing = (length disp - 1)%nat
    /\ py_sum dispersing = 1.
Proof.
  intros Hlen.
  destruct disp as [|d0 [|d1 rest]]; simpl in Hlen; try lia.
  destruct (last (d0 :: d1 :: rest)) as [d_last|] eqn:Hlast.
  2:{ rewrite last_lookup in Hlast. simpl in Hlast.
      apply lookup_ge_None in Hlast. simpl in Hlast. lia. }
  pose proof (py_sum_np_diff d0 (d1 :: rest) d_last Hlast) as Hsum.
  set (D := np_diff (d0 :: d1 :: rest)) in *.
  assert (HlenD : length D = S (length rest)).
  { unfold D. rewrite length_np_diff. simpl. lia. }
  destruct (D !! 0%nat) as [x0|] eqn:Hx0.
  2:{ apply lookup_ge_None in Hx0. lia. }
  set (D1 := <[0%nat := x0 + d0]> D).
  assert (HlenD1 : length D1 = S (length rest))
    by (unfold D1; rewrite length_insert; exact HlenD).
  assert (Hsum1 : py_sum D1 = d_last - d0 + d0).
  { unfold D1. rewrite (py_sum_insert _ _ x0) by exact Hx0. lra. }
  destruct (last D1) as [xl|] eqn:Hxl.
  2:{ rewrite last_lookup in Hxl. apply lookup_ge_None in Hxl. lia. }
  exists (<[(length D1 - 1)%nat := xl + (1 - d_last)]> D1).
  split; [|split].
  - unfold getitem_last, getitem, iadd_item, iadd_last.
    rewrite Hlast. cbn [mbind result_bind lookup list_lookup].
    fold D. rewrite Hx0. cbn [mbind result_bind]. fold D1.
    rewrite Hxl. reflexivity.
  - rewrite length_insert, HlenD1. simpl. lia.
  - rewrite (py_sum_insert _ _ xl).
    + rewrite Hsum1. lra.
    + rewrite last_lookup in Hxl. rewrite <- Hxl. f_equal. lia.
Qed.

Lemma dispersal_sum (ndtr : R -> R) (vec : list R) (parent : nat) (mut_scale : R) :
  (parent < length vec)%nat ->
  exists dispersing : list R,
    dispersal ndtr vec parent mut_scale = Ok dispersing
    /\ length dispersing = length vec
    /\ py_sum dispersing = 1.
Proof.
  intros Hparent.
  destruct (lookup_lt_is_Some_2 vec parent Hparent) as [loc Hloc].
  set (disp := map (fun e => norm_cdf ndtr e loc (sqrt mut_scale))
                 (edge_values (length vec))).
  assert (Hlen : length disp = (length vec + 1)%nat).
  { unfold disp, edge_values. rewrite length_map. apply length_linspace. }
  destruct (boundary_fold_sum disp) as (D & HD & HlenD & Hsum); [lia|].
  exists D. split; [|split].
  - assert (Hget : getitem vec parent = Ok loc)
      by (unfold getitem; rewrite Hloc; reflexivity).
    unfold dispersal. rewrite Hget.
    cbn [mbind result_bind]. exact HD.
  - lia.
  - exact Hsum.
Qed.

Lemma set_column_length (kernel : list (list R)) (j : nat) (col : list R) :
  length col = length kernel -> length (set_column kernel j col) = length kernel.
Proof.
  intros H. unfold set_column. rewrite length_zip_with. lia.
Qed.

Lemma set_column_rows (N : nat) (kernel : list (list R)) (j : nat) (col : list R) :
  Forall (fun row => length row = N) kernel ->
  Forall (fun row => length row = N) (set_column kernel j col).
Proof.
  intros H. revert col.
  induction H as [|row kernel Hrow _ IH]; intros [|x col]; simpl;
    try constructor.
  - rewrite length_insert. exact Hrow.
  - apply IH.
Qed.

Lemma column_set_column_eq (kernel : list (list R)) (j : nat) (col : list R) :
  Forall (fun row => (j < length row)%nat) kernel ->
  length col = length kernel ->
  column (set_column kernel j col) j = col.
Proof.
  intros H. revert col.
  induction H as [|row kernel Hrow _ IH]; intros [|x col] Hlen; simpl in *;
    try discriminate; try reflexivity.
  rewrite list_lookup_insert_eq by exact Hrow.
  f_equal. apply IH. lia.
Qed.

Lemma column_set_column_ne (kernel : list (list R)) (j j' : nat) (col : list R) :
  j <> j' -> length col = length kernel ->
  column (set_column kernel j col) j' = column kernel j'.
Proof.
  intros Hne. revert col.
  induction kernel as [|row kernel IH]; intros [|x col] Hlen; simpl in *;
    try discriminate; try reflexivity.
  rewrite list_lookup_insert_ne by exact Hne.
  rewrite (IH col) by lia. reflexivity.
Qed.




(** ** ODE driver *)

Lemma linspace_two (a b : R) : linspace a b 2 = [0 * ((b - a) / 1) + a; b].
Proof. reflexivity. Qed.

(** With two output times there is one call of the integrator, and its
    outcome is never looked at: the state it left is returned. *)
Lemma find_soln_two_points
    (PARAMS : PARAMS_t) (DEFAULT_I0 : R)
    (dopri5 : (R -> R * R -> R * R) -> R * R -> R -> R -> (R * R) * R * bool)
    (beta_ : R) (I0 : option R) (t0 t1 : R) :
  let I0' := default DEFAULT_I0 I0 in
  let y0 := (host_growth_initial_area PARAMS * (1 - I0'),
             host_growth_initial_area PARAMS * I0') in
  find_soln_given_beta_and_no_control PARAMS DEFAULT_I0 dopri5 beta_ I0
    (Some [t0; t1])
  = Ok [y0; (dopri5 (fun t y => ode_simple PARAMS t y beta_) y0 t0 t1).1.1].
Proof.
  intros I0' y0. unfold find_soln_given_beta_and_no_control.
  fold I0'. fold y0. cbn. unfold integrate. cbn.
  destruct (dopri5 _ y0 t0 t1) as [[y t] ok]. reflexivity.
Qed.

(** A failure before the last step is reported. *)
Lemma integrate_loop_raises_after_failure
    (PARAMS : PARAMS_t)
    (dopri5 : (R -> R * R -> R * R) -> R * R -> R -> R -> (R * R) * R * bool)
    (beta_ : R) (solver : ode_solver) (y_out : list (R * R)) (ind : nat)
    (t_next t_after : R) (ts : list R) :
  successful solver = true ->
  (dopri5 (fun t y => ode_simple PARAMS t y beta_)
     (ode_y solver) (ode_t solver) t_next).2 = false ->
  integrate_loop PARAMS dopri5 beta_ solver y_out ind (t_next :: t_after :: ts)
  = Raise RuntimeError.
Proof.
  intros Hok Hfail. cbn [integrate_loop]. rewrite Hok.
  unfold successful, integrate.
  destruct (dopri5 _ (ode_y solver) (ode_t solver) t_next) as [[y t] ok].
  simpl in Hfail. subst ok. cbn. rewrite andb_false_r. reflexivity.
Qed.

(** On the default output times, [T_1] and [T_end], there is a single
    integration step; whatever the integrator reports for it, the array
    is returned. *)
Lemma find_soln_default_never_raises
    (PARAMS : PARAMS_t) (DEFAULT_I0 : R)
    (dopri5 : (R -> R * R -> R * R) -> R * R -> R -> R -> (R * R) * R * bool)
    (beta_ : R) (I0 : option R) :
  exists y0 y1 : R * R,
    find_soln_given_beta_and_no_control PARAMS DEFAULT_I0 dopri5 beta_ I0 None
    = Ok [y0; y1].
Proof.
  unfold find_soln_given_beta_and_no_control. rewrite linspace_two.
  cbn. unfold integrate. cbn.
  destruct (dopri5 _ _ _ _) as [[y t] ok]. eauto.
Qed.

(** C2.  Code defect: the loop tests [solver.successful()] before each
    call of [solver.integrate] and never after the last one.  With the
    default output times and an integrator that fails on its only step,
    leaving the state where it was, no error is raised: the array comes
    back with the initial state in its last column. *)
Theorem find_soln_returns_stale_state_on_final_failure :
  (dopri5_failing (fun t y => ode_simple PARAMS_wheat t y 0.01)
     (0.05 * (1 - 0.01), 0.05 * 0.01) 1456 2515).2 = false
  /\ find_soln_given_beta_and_no_control PARAMS_wheat 0.01 dopri5_failing
       0.01 None None
     = Ok [(0.05 * (1 - 0.01), 0.05 * 0.01); (0.05 * (1 - 0.01), 0.05 * 0.01)].
Proof.
  split; [reflexivity|].
  unfold find_soln_given_beta_and_no_control. rewrite linspace_two.
  reflexivity.
Qed.

(** ** Calibration of the transmission rate *)

Section find_beta_facts.

Variable PARAMS : PARAMS_t.
Variable DEFAULT_I0 : R.
Variable dopri5 :
  (R -> R * R -> R * R) -> R * R -> R -> R -> (R * R) * R * bool.
Variable minimize_powell :
  (R -> result npfloat) -> R -> R * R -> R -> result OptimizeResult.

Lemma flt_Fin_Fin (a b : R) : flt (Fin a) (Fin b) = true <-> a < b.
Proof. simpl. apply bool_decide_eq_true. Qed.

(** The test that lets a result through. *)
Lemma accepts_iff (min_out : OptimizeResult) :
  opt_success min_out && flt (opt_x0 min_out) (Fin 5e-2)
    && flt (Fin 1e-4) (opt_x0 min_out) = true
  <-> opt_success min_out = true
      /\ exists x, opt_x0 min_out = Fin x /\ 1e-4 < x < 5e-2.
Proof.
  rewrite !andb_true_iff. split.
  - intros [[Hs Hhi] Hlo]. split; [exact Hs|].
    destruct (opt_x0 min_out) as [x| | |]; try discriminate.
    exists x. apply flt_Fin_Fin in Hhi, Hlo. split; [reflexivity|lra].
  - intros [Hs (x & -> & Hlo & Hhi)].
    rewrite !flt_Fin_Fin. auto.
Qed.

(** C3, as amended.  When the optimiser returns, [find_beta] returns
    its result [x] exactly when the optimiser reports success and [x]
    lies strictly between the bounds, [1e-4 < x < 5e-2], and prints no
    warning about it; in every other case, a failure or a result on or
    outside a bound or NaN, it prints the warning last and returns NaN,
    which is no number. *)
Theorem find_beta_result (final_sev : R) (I0 : option R)
    (min_out : OptimizeResult) :
  minimize_powell
    (fun b => beta_objective PARAMS DEFAULT_I0 dopri5 b final_sev I0)
    0.0078 (1e-4, 5e-2) 1e-4 = Ok min_out ->
  let out := find_beta PARAMS DEFAULT_I0 dopri5 minimize_powell final_sev I0 in
  (forall x, opt_success min_out = true -> opt_x0 min_out = Fin x ->
     1e-4 < x < 5e-2 ->
     out.2 = Ok (Fin x)
     /\ forall y s, warn_beta y s ∉ out.1)
  /\ (~ (opt_success min_out = true
         /\ exists x, opt_x0 min_out = Fin x /\ 1e-4 < x < 5e-2) ->
      out.2 = Ok NaN
      /\ last out.1 = Some (warn_beta (opt_x0 min_out) final_sev)
      /\ forall x, out.2 <> Ok (Fin x)).
Proof.
  intros Hmin. unfold find_beta. cbv zeta. rewrite Hmin. cbn [fst snd].
  destruct (opt_success min_out && flt (opt_x0 min_out) (Fin 5e-2)
            && flt (Fin 1e-4) (opt_x0 min_out)) eqn:Hacc.
  - apply accepts_iff in Hacc. split.
    + intros x _ Hx _. cbn [fst snd]. split; [rewrite Hx; reflexivity|].
      intros y s Hin. case_decide; [|inversion Hin].
      apply list_elem_of_singleton in Hin. discriminate.
    + intros Hnot. contradiction.
  - split.
    + intros x Hs Hx Hb.
      assert (Hyes : opt_success min_out && flt (opt_x0 min_out) (Fin 5e-2)
                     && flt (Fin 1e-4) (opt_x0 min_out) = true)
        by (apply accepts_iff; eauto).
      congruence.
    + intros _. cbn [fst snd]. split; [reflexivity|].
      split; [apply last_snoc|]. intros x. discriminate.
Qed.

End find_beta_facts.

(** An optimiser that succeeds with a result of 0.0026, inside the
    bounds: [find_beta] returns it. *)
Lemma find_beta_result_witness :
  (find_beta PARAMS_wheat 0.01 dopri5_frozen
     (minimize_stops_at (Fin 0.0026) true) 0.002 None).2 = Ok (Fin 0.0026).
Proof.
  refine (proj1 (proj1 (find_beta_result PARAMS_wheat 0.01 dopri5_frozen
    (minimize_stops_at (Fin 0.0026) true) 0.002 None
    {| opt_x0 := Fin 0.0026; opt_success := true |} eq_refl)
    0.0026 eq_refl eq_refl _)).
  lra.
Defined.

(** C3, as stated, fails on a bound: the optimiser succeeds and stops at
    [1e-4], a point of [[1e-4, 5e-2]], and [find_beta] returns NaN. *)
Lemma find_beta_on_lower_bound_is_nan :
  let min_out := {| opt_x0 := Fin 1e-4; opt_success := true |} in
  opt_success min_out = true
  /\ (exists x, opt_x0 min_out = Fin x /\ 1e-4 <= x <= 5e-2)
  /\ (find_beta PARAMS_wheat 0.01 dopri5_frozen
        (minimize_stops_at (Fin 1e-4) true) 0.002 None).2 = Ok NaN.
Proof.
  split; [reflexivity|]. split; [exists 1e-4; split; [reflexivity|lra]|].
  unfold find_beta, minimize_stops_at. cbn [opt_success opt_x0 fst snd andb].
  rewrite (proj2 (flt_Fin_Fin 1e-4 5e-2)) by lra.
  destruct (flt (Fin 1e-4) (Fin 1e-4)) eqn:H; [|reflexivity].
  apply flt_Fin_Fin in H. lra.
Qed.

(** ** Distribution builders *)

Lemma fold_fadd_Fin (l : list R) (a : R) :
  fold_left fadd (map Fin l) (Fin a) = Fin (fold_left Rplus l a).
Proof.
  revert a. induction l as [|x l IH]; intros a; simpl; [reflexivity|apply IH].
Qed.

Lemma np_sum_Fin (l : list R) : np_sum (map Fin l) = Fin (py_sum l).
Proof. apply fold_fadd_Fin. Qed.

Lemma fdiv_Fin (a s : R) : s <> 0 -> fdiv (Fin a) (Fin s) = Fin (a / s).
Proof. intros Hs. simpl. rewrite decide_False by exact Hs. reflexivity. Qed.

Lemma normalise_Fin (l : list R) :
  py_sum l <> 0 ->
  normalise (map Fin l) = map Fin (map (fun x => x / py_sum l) l).
Proof.
  intros Hs. unfold normalise. rewrite np_sum_Fin, !map_map.
  apply map_ext. intros x. apply fdiv_Fin, Hs.
Qed.

(** A vector that already sums to one is its own normalisation. *)
Lemma normalise_Fin_unit (l : list R) :
  py_sum l = 1 -> normalise (map Fin l) = map Fin l.
Proof.
  intros Hs. rewrite normalise_Fin by lra. rewrite Hs. f_equal.
  rewrite <- (map_id l) at 2. apply map_ext. intros x. lra.
Qed.



Lemma py_sum_telescope (v : nat -> R) (n : nat) :
  py_sum (map (fun i => v (S i) - v i) (seq 0 n)) = v n - v 0%nat.
Proof.
  induction n as [|n IH].
  - simpl. rewrite py_sum_nil. lra.
  - rewrite seq_S, map_app, py_sum_app, IH. simpl.
    rewrite py_sum_cons, py_sum_nil. lra.
Qed.


Lemma map_seq_ext {A : Type} (f g : nat -> A) (n : nat) :
  (forall i, (i < n)%nat -> f i = g i) -> map f (seq 0 n) = map g (seq 0 n).
Proof.
  intros H. apply map_ext_in. intros i Hi. apply in_seq in Hi. apply H. lia.
Qed.

Lemma beta_cdf_Fin (betainc : R -> R -> R -> R) (a b e : R) :
  0 < a -> 0 < b ->
  beta_cdf betainc (Fin e) a b = Fin (cdf01 (betainc a b) e).
Proof.
  intros Ha Hb. unfold beta_cdf, rv_cdf, cdf01.
  rewrite !bool_decide_eq_true_2 by lra.
  cbn [fsub fneg fadd]. rewrite fdiv_Fin by lra.
  replace ((e + - 0) / 1) with e by lra.
  cbn [andb negb orb isnan fle flt].
  destruct (decide (1 <= e)) as [H1|H1].
  - rewrite bool_decide_eq_true_2 by exact H1. reflexivity.
  - rewrite bool_decide_eq_false_2 by exact H1.
    destruct (decide (0 < e)) as [H0|H0].
    + rewrite bool_decide_eq_true_2 by exact H0. reflexivity.
    + rewrite bool_decide_eq_false_2 by exact H0. reflexivity.
Qed.

Lemma gamma_cdf_Fin (gammainc : R -> R -> R) (a scale c : R) :
  0 < a -> 0 < scale ->
  gamma_cdf gammainc (Fin c) a scale = Fin (cdf0inf (gammainc a) scale c).
Proof.
  intros Ha Hs. unfold gamma_cdf, rv_cdf, cdf0inf.
  rewrite !bool_decide_eq_true_2 by lra.
  cbn [fsub fneg fadd]. rewrite fdiv_Fin by lra.
  replace ((c + - 0) / scale) with (c / scale) by (unfold Rdiv; lra).
  cbn [andb negb orb isnan fle flt].
  destruct (decide (0 < c / scale)) as [H0|H0].
  - rewrite bool_decide_eq_true_2 by exact H0. reflexivity.
  - rewrite bool_decide_eq_false_2 by exact H0. reflexivity.
Qed.

Lemma gamma_cdf_PInf (gammainc : R -> R -> R) (a scale : R) :
  0 < a -> 0 < scale -> gamma_cdf gammainc PInf a scale = Fin 1.
Proof.
  intros Ha Hs. unfold gamma_cdf, rv_cdf.
  rewrite !bool_decide_eq_true_2 by lra.
  cbn [fsub fneg fadd fdiv]. rewrite decide_True by lra. reflexivity.
Qed.




Lemma mapM_Ok {A B : Type} (f : A -> result B) (g : A -> B) (l : list A) :
  (forall x, x ∈ l -> f x = Ok (g x)) -> mapM f l = Ok (map g l).
Proof.
  induction l as [|x l IH]; intros H; [reflexivity|].
  cbn [mapM]. rewrite (H x) by (apply elem_of_cons; auto).
  cbn [mbind result_bind].
  rewrite IH by (intros y Hy; apply H, elem_of_cons; auto).
  reflexivity.
Qed.

Lemma edge_values_total (n i : nat) :
  (1 <= n)%nat -> (i <= n)%nat ->
  map Fin (edge_values n) !!! i = Fin (INR i / INR n).
Proof.
  intros Hn Hi. apply list_lookup_total_correct.
  rewrite list_lookup_fmap, edge_values_lookup by lia. reflexivity.
Qed.

(** The unnormalised beta bins are the differences of the distribution
    function over the edges [i/n]. *)
Lemma beta_dist_bins (betainc : R -> R -> R -> R) (n : nat) (a b : R) :
  (1 <= n)%nat -> 0 < a -> 0 < b ->
  let v := fun i : nat => cdf01 (betainc a b) (INR i / INR n) in
  beta_dist betainc n a b
  = normalise (map Fin (map (fun i => v (S i) - v i) (seq 0 n))).
Proof.
  intros Hn Ha Hb v. unfold beta_dist. cbv zeta.
  rewrite length_map, length_edge_values.
  replace (n + 1 - 1)%nat with n by lia.
  f_equal. rewrite map_map. apply map_seq_ext. intros i Hi.
  rewrite !edge_values_total by lia.
  rewrite !beta_cdf_Fin by assumption.
  replace (i + 1)%nat with (S i) by lia. reflexivity.
Qed.

(** The curvature edges: infinity, then [ln (n / i)] for the edges
    [i/n]. *)
Lemma curvature_edges_lookup (n i : nat) :
  (1 <= n)%nat -> (i <= n)%nat ->
  (PInf :: map (fun e => flog (fdiv (Fin 1) (Fin e))) (drop 1 (edge_values n)))
    !!! i
  = match i with
    | O => PInf
    | S _ => Fin (ln (1 / (INR i / INR n)))
    end.
Proof.
  intros Hn Hi. apply list_lookup_total_correct.
  destruct i as [|k]; [reflexivity|].
  rewrite lookup_cons_ne_0 by lia. cbn [pred].
  rewrite list_lookup_fmap, lookup_drop, edge_values_lookup by lia.
  replace (1 + k)%nat with (S k) by lia. cbn [fmap option_fmap option_map].
  assert (H0 : 0 < INR (S k) / INR n).
  { apply Rdiv_lt_0_compat; apply lt_0_INR; lia. }
  rewrite fdiv_Fin by lra. unfold flog.
  rewrite decide_True by (apply Rdiv_lt_0_compat; lra). reflexivity.
Qed.

Lemma gamma_dist_bins (gammainc : R -> R -> R) (n : nat) (a b : R) :
  (1 <= n)%nat -> 0 < a -> 0 < b ->
  let w := fun i : nat =>
    match i with
    | O => 1
    | S _ => cdf0inf (gammainc a) (1 / b) (ln (1 / (INR i / INR n)))
    end in
  gamma_dist gammainc n a b
  = Ok (normalise (map Fin (map (fun i => w i - w (S i)) (seq 0 n)))).
Proof.
  intros Hn Ha Hb w. unfold gamma_dist. cbv zeta.
  cbn [length]. rewrite length_map, length_drop, length_edge_values.
  replace (S (n + 1 - 1) - 1)%nat with n by lia.
  assert (Hs : 0 < 1 / b) by (apply Rdiv_lt_0_compat; lra).
  erewrite mapM_Ok; [cbn [mbind result_bind]; rewrite map_map; reflexivity|].
  intros i Hi. apply elem_of_seq in Hi.
  unfold py_div. rewrite decide_False by lra. cbn [mbind result_bind].
  rewrite !curvature_edges_lookup by lia.
  replace (i + 1)%nat with (S i) by lia.
  rewrite (gamma_cdf_Fin gammainc a (1 / b)) by assumption.
  destruct i as [|k].
  - rewrite gamma_cdf_PInf by assumption. reflexivity.
  - rewrite gamma_cdf_Fin by assumption. reflexivity.
Qed.

Lemma beta_bins_sum (F : R -> R) (n : nat) :
  (1 <= n)%nat ->
  let v := fun i : nat => cdf01 F (INR i / INR n) in
  py_sum (map (fun i => v (S i) - v i) (seq 0 n)) = 1.
Proof.
  intros Hn v. rewrite (py_sum_telescope v). unfold v, cdf01.
  assert (Hn0 : 0 < INR n) by (apply lt_0_INR; lia).
  replace (INR n / INR n) with 1 by (field; lra).
  replace (INR 0 / INR n) with 0 by (simpl; field; lra).
  rewrite decide_True by lra.
  rewrite (decide_False (P := 1 <= 0)) by lra.
  rewrite decide_False by lra. lra.
Qed.


Lemma gamma_bins_sum (F : R -> R) (scale : R) (n : nat) :
  (1 <= n)%nat ->
  let w := fun i : nat =>
    match i with
    | O => 1
    | S _ => cdf0inf F scale (ln (1 / (INR i / INR n)))
    end in
  py_sum (map (fun i => w i - w (S i)) (seq 0 n)) = 1.
Proof.
  intros Hn w.
  rewrite (map_seq_ext _ (fun i => (fun k => - w k) (S i) - (fun k => - w k) i))
    by (intros i _; lra).
  rewrite (py_sum_telescope (fun k => - w k)).
  assert (Hn0 : 0 < INR n) by (apply lt_0_INR; lia).
  assert (Hwn : w n = 0).
  { unfold w. destruct n as [|k]; [lia|]. unfold cdf0inf.
    replace (1 / (INR (S k) / INR (S k))) with 1 by (field; lra).
    rewrite ln_1. rewrite decide_False; [reflexivity|].
    unfold Rdiv. rewrite Rmult_0_l. lra. }
  rewrite Hwn. simpl. lra.
Qed.




(** ** Shape parameters outside the domain *)

Lemma rv_cdf_bad_args (argcheck : bool) (a_ : R) (b_ : npfloat)
    (_cdf : R -> R) (loc scale : R) (x : npfloat) :
  argcheck && bool_decide (0 < scale) = false ->
  rv_cdf argcheck a_ b_ _cdf loc scale x = NaN.
Proof. intros H. unfold rv_cdf. rewrite H. reflexivity. Qed.

Lemma map_const_seq {A : Type} (x : A) (start n : nat) :
  map (fun _ => x) (seq start n) = replicate n x.
Proof.
  revert start. induction n as [|n IH]; intros start; simpl;
    [reflexivity|]. rewrite IH. reflexivity.
Qed.

Lemma normalise_all_nan (n : nat) :
  normalise (replicate n NaN) = replicate n NaN.
Proof.
  unfold normalise. generalize (np_sum (replicate n NaN)). intros s.
  induction n as [|n IH]; simpl; [reflexivity|]. rewrite IH. reflexivity.
Qed.

Lemma beta_dist_invalid (betainc : R -> R -> R -> R) (n : nat) (a b : R) :
  a <= 0 \/ b <= 0 -> beta_dist betainc n a b = replicate n NaN.
Proof.
  intros Hab. unfold beta_dist. cbv zeta.
  rewrite length_map, length_edge_values.
  replace (n + 1 - 1)%nat with n by lia.
  rewrite <- normalise_all_nan. f_equal.
  rewrite <- (map_const_seq NaN 0 n). apply map_ext. intros i.
  unfold beta_cdf. rewrite !rv_cdf_bad_args; [reflexivity| |].
  all: apply andb_false_iff; left; apply andb_false_iff;
    destruct Hab; [left|right]; apply bool_decide_eq_false_2; lra.
Qed.

Lemma gamma_dist_invalid (gammainc : R -> R -> R) (n : nat) (a b : R) :
  a <= 0 \/ b < 0 -> b <> 0 ->
  gamma_dist gammainc n a b = Ok (replicate n NaN).
Proof.
  intros Hab Hb0. unfold gamma_dist. cbv zeta.
  cbn [length]. rewrite length_map, length_drop, length_edge_values.
  replace (S (n + 1 - 1) - 1)%nat with n by lia.
  erewrite (mapM_Ok _ (fun _ => NaN)).
  - cbn [mbind result_bind]. rewrite map_const_seq, normalise_all_nan.
    reflexivity.
  - intros i _. unfold py_div. rewrite decide_False by exact Hb0.
    cbn [mbind result_bind]. unfold gamma_cdf.
    rewrite !rv_cdf_bad_args; [reflexivity| |].
    all: apply andb_false_iff; destruct Hab as [Ha|Hb];
      [left; apply bool_decide_eq_false_2; lra|right].
    all: apply bool_decide_eq_false_2; intros Hs.
    all: assert (0 < b); [|lra].
    all: replace b with (/ (1 / b)) by (field; exact Hb0).
    all: apply Rinv_0_lt_compat, Hs.
Qed.

Lemma gamma_dist_zero_rate (gammainc : R -> R -> R) (n : nat) (a : R) :
  (1 <= n)%nat -> gamma_dist gammainc n a 0 = Raise ZeroDivisionError.
Proof.
  intros Hn. unfold gamma_dist. cbv zeta.
  cbn [length]. rewrite length_map, length_drop, length_edge_values.
  replace (S (n + 1 - 1) - 1)%nat with (S (n - 1)) by lia.
  cbn [seq mapM]. unfold py_div. rewrite decide_True by reflexivity.
  reflexivity.
Qed.

(** C7, as amended.  The builders do not check their shape parameters.
    For [a <= 0] or [b <= 0], [beta_dist] returns, without any report, a
    vector of [n] NaNs; so does [gamma_dist] unless [b = 0], where the
    division [1/b] of two Python floats raises [ZeroDivisionError] as soon
    as there is a bin. *)
Theorem dist_builders_do_not_check_shapes
    (betainc : R -> R -> R -> R) (gammainc : R -> R -> R)
    (n : nat) (a b : R) :
  a <= 0 \/ b <= 0 ->
  beta_dist betainc n a b = replicate n NaN
  /\ (b <> 0 -> gamma_dist gammainc n a b = Ok (replicate n NaN))
  /\ (b = 0 -> (1 <= n)%nat ->
      gamma_dist gammainc n a b = Raise ZeroDivisionError).
Proof.
  intros Hab. split; [apply beta_dist_invalid, Hab|]. split.
  - intros Hb0. apply gamma_dist_invalid; [|exact Hb0].
    destruct Hab as [Ha|Hb]; [left; exact Ha|right; lra].
  - intros -> Hn. apply gamma_dist_zero_rate, Hn.
Qed.

Lemma dist_builders_do_not_check_shapes_witness :
  beta_dist betainc_1_1 3 0 1 = replicate 3 NaN
  /\ (1 <> 0 -> gamma_dist gammainc_1 3 0 1 = Ok (replicate 3 NaN))
  /\ (1 = 0 -> (1 <= 3)%nat ->
      gamma_dist gammainc_1 3 0 1 = Raise ZeroDivisionError).
Proof.
  apply (dist_builders_do_not_check_shapes betainc_1_1 gammainc_1 3 0 1).
  left. lra.
Defined.

(** C7, as stated, fails: with the shape [a = -1] both builders return
    normally, and what they return is a vector of NaNs. *)
Lemma dist_builders_return_nan_silently :
  -1 <= 0
  /\ beta_dist betainc_1_1 2 (-1) 1 = [NaN; NaN]
  /\ gamma_dist gammainc_1 2 (-1) 1 = Ok [NaN; NaN].
Proof.
  split; [lra|]. split.
  - rewrite beta_dist_invalid by (left; lra). reflexivity.
  - rewrite gamma_dist_invalid by (try left; lra). reflexivity.
Qed.

(** ** Configuration objects *)

(** Deleting keys that are all there, each once, removes them and
    nothing else. *)
Lemma delattr_each_frame (keys : list string) (obj : gmap string pyval) :
  NoDup keys ->
  (forall key, key ∈ keys -> is_Some (obj !! key)) ->
  exists obj' : gmap string pyval,
    delattr_each keys obj = (obj', Ok ())
    /\ (forall key, key ∈ keys -> obj' !! key = None)
    /\ (forall key, key ∉ keys -> obj' !! key = obj !! key).
Proof.
  intros Hnodup. revert obj.
  induction Hnodup as [|key rest Hnotin _ IH]; intros obj Hall.
  - exists obj. split; [reflexivity|]. split; [|reflexivity].
    intros key Hkey. inversion Hkey.
  - destruct (Hall key) as [v Hv]; [apply elem_of_cons; auto|].
    destruct (IH (delete key obj)) as (obj' & Hrun & Hgone & Hkept).
    { intros k Hk. rewrite lookup_delete_ne by (intros ->; contradiction).
      apply Hall, elem_of_cons. auto. }
    exists obj'. split; [|split].
    + cbn [delattr_each]. rewrite Hv. exact Hrun.
    + intros k Hk. apply elem_of_cons in Hk as [->|Hk]; [|apply Hgone, Hk].
      rewrite (Hkept key Hnotin). apply lookup_delete_eq.
    + intros k Hk. apply not_elem_of_cons in Hk as [Hne Hk].
      rewrite (Hkept k Hk). apply lookup_delete_ne. congruence.
Qed.

Lemma bind_Ok_inv {A B : Type} (m : result A) (k : A -> result B) (b : B) :
  m ≫= k = Ok b -> exists a, m = Ok a /\ k a = Ok b.
Proof.
  destruct m as [a|e]; cbn [mbind result_bind]; [eauto|discriminate].
Qed.

Lemma Ok_inj {A : Type} (a b : A) : Ok a = Ok b -> a = b.
Proof. intros H. congruence. Qed.

Lemma host_attrs_NoDup : NoDup host_attrs.
Proof. apply (bool_decide_unpack _). vm_compute. exact I. Qed.

Ltac attr_present :=
  repeat first
    [ apply lookup_insert_is_Some'; left; reflexivity
    | apply lookup_insert_is_Some'; right ].

(** The attributes every constructed [Config] has. *)
Lemma Config_init_attrs (consts : consts_t) (fit : list fit_row)
    (args : Config_args) (cfg : gmap string pyval) :
  Config.init consts fit args = Ok cfg ->
  (forall key,
     key ∈ ["n_years"; "sprays"; "fungicide_mixture"; "n_k"; "n_l";
            "decay_rate"; "asymptote"; "doses"; "host_on";
            "replace_cultivars"; "mutation_proportion";
            "mutation_scale_host"; "mutation_scale_fung";
            "k_mu"; "k_b"; "l_mu"; "l_b"; "I0s"]%string ->
     is_Some (cfg !! key))
  /\ (default "single"%string (arg_type args) = "single"%string ->
      is_Some (cfg !! "betas"%string)).
Proof.
  unfold Config.init. cbv zeta. intros H.
  destruct (decide (length _ = 2%nat)); [|discriminate].
  apply bind_Ok_inv in H as (k_mu & _ & H).
  apply bind_Ok_inv in H as (k_b & _ & H).
  apply bind_Ok_inv in H as (l_mu & _ & H).
  apply bind_Ok_inv in H as (l_b & _ & H).
  apply Ok_inj in H. subst cfg.
  split.
  - intros key Hkey.
    apply list_elem_of_In in Hkey. cbn [In] in Hkey.
    repeat (destruct Hkey as [<-|Hkey]); [..|contradiction].
    all: repeat case_decide; attr_present.
  - intros Htype. rewrite decide_True by exact Htype.
    apply lookup_insert_is_Some'. left. reflexivity.
Qed.


Lemma np_isclose_0_0 : np_isclose 0 0.
Proof. unfold np_isclose. rewrite Rminus_0_r, Rabs_R0. lra. Qed.

Lemma Config_init_example :
  exists cfg, Config.init consts_example fit_example args_example = Ok cfg.
Proof.
  unfold Config.init, fit_example. cbv zeta.
  rewrite !filter_cons_True by (repeat split; apply np_isclose_0_0).
  rewrite filter_nil, decide_True by reflexivity.
  eexists. reflexivity.
Qed.


(** ** Instances *)






Example initial_point_distribution_middle :
  Zfloor (0.5 * IZR (Z.of_nat 5 - 1)) = 2%Z.
Proof. change (Z.of_nat 5 - 1)%Z with 4%Z. apply Zfloor_eq. lra. Qed.

(** * Further properties of the code *)

(** ** Grid *)

(** X1.  For [n >= 1] the edges run strictly increasing from exactly 0 to
    exactly 1, and each value of [trait_vec n] is the midpoint of the two
    edges of its bin, strictly between them. *)
Theorem grid_edges_and_midpoints (n : nat) :
  (1 <= n)%nat ->
  edge_values n !! 0%nat = Some 0
  /\ last (edge_values n) = Some 1
  /\ (forall i j x y, (i < j)%nat ->
        edge_values n !! i = Some x -> edge_values n !! j = Some y -> x < y)
  /\ exists vec : list R,
       trait_vec n = Ok vec
       /\ forall i, (i < n)%nat ->
            exists e0 e1 x,
              edge_values n !! i = Some e0
              /\ edge_values n !! S i = Some e1
              /\ vec !! i = Some x
              /\ x = (e0 + e1) / 2
              /\ e0 < x < e1.
Proof.
  intros Hn.
  assert (Hn0 : 0 < INR n) by (apply lt_0_INR; lia).
  split; [|split; [|split]].
  - rewrite edge_values_lookup by lia. f_equal. simpl. field. lra.
  - rewrite last_lookup, length_edge_values.
    replace (pred (n + 1)) with n by lia.
    rewrite edge_values_lookup by lia. f_equal. field. lra.
  - intros i j x y Hij Hi Hj.
    assert (Hjn : (j <= n)%nat).
    { apply lookup_lt_Some in Hj. rewrite length_edge_values in Hj. lia. }
    rewrite edge_values_lookup in Hi, Hj by lia.
    injection Hi as <-. injection Hj as <-.
    apply Rmult_lt_compat_r; [apply Rinv_0_lt_compat, Hn0|].
    apply lt_INR, Hij.
  - destruct (trait_vec n) as [vec|e] eqn:Hvec;
      [|rewrite trait_vec_eq in Hvec by lia; discriminate].
    exists vec. split; [reflexivity|]. intros i Hi.
    exists (INR i / INR n), (INR (S i) / INR n),
      ((2 * INR i + 1) / (2 * INR n)).
    split; [apply edge_values_lookup; lia|].
    split; [apply edge_values_lookup; lia|].
    split; [apply (trait_vec_lookup n i vec Hvec Hi)|].
    rewrite S_INR. split; [field; lra|].
    assert (Hinv : 0 < / INR n) by (apply Rinv_0_lt_compat, Hn0).
    unfold Rdiv. rewrite Rinv_mult.
    split; nra.
Qed.

Lemma grid_edges_and_midpoints_witness :
  edge_values 3 !! 0%nat = Some 0 /\ last (edge_values 3) = Some 1.
Proof.
  destruct (grid_edges_and_midpoints 3) as (H0 & H1 & _); [lia|].
  split; assumption.
Defined.

(** ** Normalisation *)








(** ** Point-mass distribution outside the unit interval *)





(** ** Bins of the beta and gamma distributions *)

Lemma lookup_map_seq {A : Type} (f : nat -> A) (n i : nat) :
  (i < n)%nat -> map f (seq 0 n) !! i = Some (f i).
Proof.
  intros Hi. rewrite list_lookup_fmap, lookup_seq_lt by lia. reflexivity.
Qed.

(** X6.  For [n >= 1] and positive shapes the normalisation step of the
    two builders rescales nothing: bin [i] of [beta_dist] is exactly the
    difference of [beta.cdf] over the edges [i/n] and [(i+1)/n], the
    first bin of [gamma_dist] is the whole tail of [gamma.cdf] beyond the
    curvature [ln n], and its bin [i >= 1] is the difference of
    [gamma.cdf] over the curvatures [ln (n/i)] and [ln (n/(i+1))]. *)
Theorem builder_bins_are_cdf_differences
    (betainc : R -> R -> R -> R) (gammainc : R -> R -> R)
    (n : nat) (a b : R) :
  (1 <= n)%nat -> 0 < a -> 0 < b ->
  (forall i, (i < n)%nat ->
     beta_dist betainc n a b !! i
     = Some (Fin (cdf01 (betainc a b) (INR (S i) / INR n)
                  - cdf01 (betainc a b) (INR i / INR n))))
  /\ exists dist : list npfloat,
       gamma_dist gammainc n a b = Ok dist
       /\ dist !! 0%nat
          = Some (Fin (1 - cdf0inf (gammainc a) (1 / b) (ln (INR n))))
       /\ forall i, (1 <= i < n)%nat ->
            dist !! i
            = Some (Fin (cdf0inf (gammainc a) (1 / b) (ln (1 / (INR i / INR n)))
                         - cdf0inf (gammainc a) (1 / b)
                             (ln (1 / (INR (S i) / INR n))))).
Proof.
  intros Hn Ha Hb.
  assert (Hn0 : 0 < INR n) by (apply lt_0_INR; lia).
  split.
  - intros i Hi. rewrite beta_dist_bins by assumption. cbv zeta.
    rewrite normalise_Fin_unit by (apply (beta_bins_sum (betainc a b) n Hn)).
    rewrite list_lookup_fmap, lookup_map_seq by exact Hi. reflexivity.
  - eexists. split; [|split].
    + rewrite gamma_dist_bins by assumption. cbv zeta.
      rewrite normalise_Fin_unit
        by (apply (gamma_bins_sum (gammainc a) (1 / b) n Hn)).
      reflexivity.
    + rewrite list_lookup_fmap, lookup_map_seq by lia.
      cbn [fmap option_fmap option_map].
      replace (1 / (INR 1 / INR n)) with (INR n) by (simpl; field; lra).
      reflexivity.
    + intros i [Hi1 Hi]. rewrite list_lookup_fmap, lookup_map_seq by lia.
      destruct i as [|k]; [lia|]. reflexivity.
Qed.

Lemma builder_bins_are_cdf_differences_witness :
  beta_dist betainc_1_1 4 1 1 !! 1%nat
  = Some (Fin (cdf01 (betainc_1_1 1 1) (INR 2 / INR 4)
               - cdf01 (betainc_1_1 1 1) (INR 1 / INR 4))).
Proof.
  destruct (builder_bins_are_cdf_differences betainc_1_1 gammainc_1 4 1 1)
    as [H _]; [lia|lra|lra|].
  apply (H 1%nat). lia.
Defined.

(** ** Entries of the dispersal kernel *)

Lemma column_lookup (kernel : list (list R)) (i j : nat) :
  Forall (fun row => (j < length row)%nat) kernel ->
  column kernel j !! i = kernel !! i ≫= (fun row => row !! j).
Proof.
  intros H. revert i. induction H as [|row kernel Hrow _ IH]; intros i.
  - reflexivity.
  - destruct (lookup_lt_is_Some_2 row j Hrow) as [x Hx].
    unfold column. cbn [omap list_omap]. rewrite Hx.
    destruct i as [|i]; [simpl; rewrite Hx; reflexivity|].
    simpl. apply IH.
Qed.

Lemma kernel_loop_columns_exact (ndtr : R -> R) (vec : list R)
    (p mutation_scale : R) (parents : list nat) (kernel : list (list R)) :
  length kernel = length vec ->
  Forall (fun row => length row = length vec) kernel ->
  Forall (fun parent => (parent < length vec)%nat) parents ->
  exists kernel' : list (list R),
    kernel_loop ndtr vec p mutation_scale parents kernel = Ok kernel'
    /\ length kernel' = length vec
    /\ Forall (fun row => length row = length vec) kernel'
    /\ forall j,
         (j ∈ parents ->
            exists dispersing,
              dispersal ndtr vec j mutation_scale = Ok dispersing
              /\ column kernel' j
                 = zip_with Rplus (map (Rmult p) dispersing)
                     (map (Rmult (1 - p))
                        (<[j := 1]> (replicate (length vec) 0))))
         /\ (j ∉ parents -> column kernel' j = column kernel j).
Proof.
  intros Hlen Hrows Hparents. revert kernel Hlen Hrows.
  induction Hparents as [|parent rest Hparent _ IH]; intros kernel Hlen Hrows.
  - exists kernel. split; [reflexivity|]. split; [exact Hlen|].
    split; [exact Hrows|]. intros j.
    split; [intros Hj; inversion Hj|reflexivity].
  - destruct (dispersal_sum ndtr vec parent mutation_scale Hparent)
      as (D & HD & HlenD & _).
    set (U := <[parent := 1]> (replicate (length vec) 0)).
    assert (HlenU : length U = length vec)
      by (unfold U; rewrite length_insert, length_replicate; reflexivity).
    set (col := zip_with Rplus (map (Rmult p) D) (map (Rmult (1 - p)) U)).
    assert (Hlencol : length col = length vec).
    { unfold col. rewrite length_zip_with, !length_map. lia. }
    destruct (IH (set_column kernel parent col))
      as (K' & HK' & HlenK' & HrowsK' & Hcols).
    { rewrite set_column_length; lia. }
    { apply set_column_rows, Hrows. }
    exists K'. split; [|split; [|split]]; try assumption.
    + cbn [kernel_loop]. rewrite unit_impulse_nat by exact Hparent.
      cbn [mbind result_bind]. rewrite HD. cbn [mbind result_bind].
      exact HK'.
    + intros j. destruct (Hcols j) as [Hin Hout]. split.
      * intros Hj. destruct (decide (j ∈ rest)) as [Hjr|Hjr]; [apply Hin, Hjr|].
        apply elem_of_cons in Hj as [Heq|Hj]; [subst j|contradiction].
        exists D. split; [exact HD|]. rewrite (Hout Hjr).
        rewrite column_set_column_eq; [reflexivity| |lia].
        eapply Forall_impl; [exact Hrows|]. simpl. intros row Hrow. lia.
      * intros Hj. apply not_elem_of_cons in Hj as [Hne Hjr].
        rewrite (Hout Hjr).
        apply column_set_column_ne; [congruence|lia].
Qed.

Lemma kernel_columns_exact (ndtr : R -> R) (vec : list R) (p mutation_scale : R) :
  exists kernel : list (list R),
    get_dispersal_kernel ndtr vec p mutation_scale = Ok kernel
    /\ length kernel = length vec
    /\ Forall (fun row => length row = length vec) kernel
    /\ forall j, (j < length vec)%nat ->
         exists dispersing,
           dispersal ndtr vec j mutation_scale = Ok dispersing
           /\ column kernel j
              = zip_with Rplus (map (Rmult p) dispersing)
                  (map (Rmult (1 - p))
                     (<[j := 1]> (replicate (length vec) 0))).
Proof.
  destruct (kernel_loop_columns_exact ndtr vec p mutation_scale
              (seq 0 (length vec))
              (replicate (length vec) (replicate (length vec) 0)))
    as (K & HK & HlenK & HrowsK & Hcols).
  - apply length_replicate.
  - apply Forall_replicate, length_replicate.
  - apply Forall_forall. intros i Hi. apply elem_of_seq in Hi. lia.
  - exists K. split; [exact HK|]. split; [exact HlenK|]. split; [exact HrowsK|].
    intros j Hj. apply (Hcols j), elem_of_seq. lia.
Qed.

Lemma np_diff_nonneg (a : list R) :
  (forall i x y, a !! i = Some x -> a !! S i = Some y -> x <= y) ->
  Forall (fun d => 0 <= d) (np_diff a).
Proof.
  induction a as [|x [|y a] IH]; intros H; try constructor.
  - specialize (H 0%nat x y eq_refl eq_refl). lra.
  - apply IH. intros i u v Hu Hv. apply (H (S i) u v Hu Hv).
Qed.

(** The two boundary additions, written out. *)
Lemma boundary_fold_value (disp dispersing : list R) :
  (d_last ← getitem_last disp;
   bottom ← getitem disp 0;
   dispersing ← iadd_item (np_diff disp) 0 bottom;
   dispersing ← iadd_last dispersing (1 - d_last);
   Ok dispersing) = Ok dispersing ->
  exists d_last bottom x0 xl,
    last disp = Some d_last /\ disp !! 0%nat = Some bottom
    /\ np_diff disp !! 0%nat = Some x0
    /\ dispersing
       = <[(length (np_diff disp) - 1)%nat := xl + (1 - d_last)]>
           (<[0%nat := x0 + bottom]> (np_diff disp))
    /\ last (<[0%nat := x0 + bottom]> (np_diff disp)) = Some xl.
Proof.
  unfold getitem_last, getitem, iadd_item, iadd_last. intros H.
  destruct (last disp) as [d_last|]; [|discriminate].
  cbn [mbind result_bind] in H.
  destruct (disp !! 0%nat) as [bottom|]; [|discriminate].
  cbn [mbind result_bind] in H.
  destruct (np_diff disp !! 0%nat) as [x0|]; [|discriminate].
  cbn [mbind result_bind] in H.
  destruct (last (<[0%nat := x0 + bottom]> (np_diff disp))) as [xl|] eqn:Hxl;
    [|discriminate].
  cbn [mbind result_bind] in H. apply Ok_inj in H.
  rewrite length_insert in H.
  exists d_last, bottom, x0, xl. rewrite Hxl. auto.
Qed.

Lemma dispersal_nonneg (ndtr : R -> R) (vec : list R) (parent : nat)
    (mut_scale : R) (dispersing : list R) :
  (forall x y, x <= y -> ndtr x <= ndtr y) ->
  (forall x, 0 <= ndtr x <= 1) ->
  dispersal ndtr vec parent mut_scale = Ok dispersing ->
  Forall (fun d => 0 <= d) dispersing.
Proof.
  intros Hmono Hrange H. unfold dispersal in H.
  apply bind_Ok_inv in H as (loc & _ & H).
  set (disp := map (fun e => norm_cdf ndtr e loc (sqrt mut_scale))
                 (edge_values (length vec))) in H.
  apply boundary_fold_value in H
    as (d_last & bottom & x0 & xl & Hlast & Hbottom & Hx0 & -> & Hxl).
  assert (Hin : forall x, x ∈ disp -> 0 <= x <= 1).
  { intros x Hx. unfold disp in Hx.
    apply list_elem_of_fmap in Hx as (e & -> & _). apply Hrange. }
  assert (Hdiff : Forall (fun d => 0 <= d) (np_diff disp)).
  { apply np_diff_nonneg. intros i x y Hx Hy. unfold disp in Hx, Hy.
    rewrite list_lookup_fmap in Hx, Hy.
    destruct (edge_values (length vec) !! i) as [e1|] eqn:He1;
      [|discriminate].
    destruct (edge_values (length vec) !! S i) as [e2|] eqn:He2;
      [|discriminate].
    injection Hx as <-. injection Hy as <-.
    assert (HS : (S i < length vec + 1)%nat).
    { apply lookup_lt_Some in He2. rewrite length_edge_values in He2. lia. }
    rewrite edge_values_lookup in He1, He2 by lia.
    injection He1 as <-. injection He2 as <-.
    apply Hmono. unfold norm_cdf.
    assert (Hsd : 0 <= / sqrt mut_scale).
    { destruct (Req_dec (sqrt mut_scale) 0) as [->|Hne].
      - rewrite Rinv_0. lra.
      - apply Rlt_le, Rinv_0_lt_compat.
        pose proof (sqrt_pos mut_scale). lra. }
    assert (Hn0 : 0 <= / INR (length vec)).
    { destruct (Req_dec (INR (length vec)) 0) as [->|Hne].
      - rewrite Rinv_0. lra.
      - apply Rlt_le, Rinv_0_lt_compat.
        pose proof (pos_INR (length vec)). lra. }
    change (match i with 0%nat => 1 | S _ => INR i + 1 end) with (INR (S i)).
    rewrite S_INR. unfold Rdiv.
    apply Rmult_le_compat_r; [exact Hsd|]. nra. }
  assert (Hfirst : Forall (fun d => 0 <= d) (<[0%nat := x0 + bottom]> (np_diff disp))).
  { apply Forall_insert; [exact Hdiff|].
    assert (0 <= x0)
      by (eapply (proj1 (Forall_lookup _ _) Hdiff); exact Hx0).
    assert (0 <= bottom <= 1)
      by (apply Hin; eapply list_elem_of_lookup_2; exact Hbottom).
    lra. }
  apply Forall_insert; [exact Hfirst|].
  assert (0 <= xl).
  { rewrite last_lookup in Hxl.
    eapply (proj1 (Forall_lookup _ _) Hfirst); exact Hxl. }
  assert (0 <= d_last <= 1).
  { apply Hin. rewrite last_lookup in Hlast.
    eapply list_elem_of_lookup_2; exact Hlast. }
  lra.
Qed.

Lemma kernel_entry (kernel : list (list R)) (N i j : nat) (row : list R) (x : R) :
  Forall (fun row => length row = N) kernel ->
  kernel !! i = Some row -> row !! j = Some x ->
  column kernel j !! i = Some x.
Proof.
  intros Hrows Hrow Hx.
  assert (Hj : (j < N)%nat).
  { apply lookup_lt_Some in Hx.
    rewrite (proj1 (Forall_lookup _ _) Hrows i row Hrow) in Hx. exact Hx. }
  rewrite column_lookup.
  - rewrite Hrow. exact Hx.
  - eapply Forall_impl; [exact Hrows|]. simpl. intros r Hr. lia.
Qed.

(** X7.  When the normal distribution function is non-decreasing with
    values in [[0, 1]], the mutation scale is positive and [p] is in
    [[0, 1]], no entry of the kernel is negative; with the column sums this makes the kernel a stochastic
    matrix. *)
Theorem kernel_entries_nonneg
    (ndtr : R -> R) (vec : list R) (p mutation_scale : R) :
  (forall x y, x <= y -> ndtr x <= ndtr y) ->
  (forall x, 0 <= ndtr x <= 1) ->
  0 < mutation_scale -> 0 <= p <= 1 ->
  exists kernel : list (list R),
    get_dispersal_kernel ndtr vec p mutation_scale = Ok kernel
    /\ Forall (Forall (fun x => 0 <= x)) kernel.
Proof.
  intros Hmono Hrange Hscale Hp.
  destruct (kernel_columns_exact ndtr vec p mutation_scale)
    as (K & HK & HlenK & HrowsK & Hcols).
  exists K. split; [exact HK|].
  apply Forall_lookup. intros i row Hrow.
  apply Forall_lookup. intros j x Hx.
  pose proof (kernel_entry K (length vec) i j row x HrowsK Hrow Hx) as Hentry.
  assert (Hj : (j < length vec)%nat).
  { apply lookup_lt_Some in Hx.
    rewrite (proj1 (Forall_lookup _ _) HrowsK i row Hrow) in Hx. exact Hx. }
  destruct (Hcols j Hj) as (D & HD & Hcol).
  rewrite Hcol in Hentry.
  apply lookup_zip_with_Some in Hentry as (d & u & -> & Hd & Hu).
  rewrite list_lookup_fmap in Hd, Hu.
  destruct (D !! i) as [d0|] eqn:Hd0; [|discriminate].
  destruct (<[j := 1]> (replicate (length vec) 0) !! i) as [u0|] eqn:Hu0;
    [|discriminate].
  injection Hd as <-. injection Hu as <-.
  assert (0 <= d0).
  { eapply (proj1 (Forall_lookup _ _)
              (dispersal_nonneg ndtr vec j mutation_scale D Hmono Hrange HD)).
    exact Hd0. }
  assert (0 <= u0).
  { destruct (decide (j = i)) as [->|Hne].
    - rewrite list_lookup_insert_eq in Hu0
        by (rewrite length_replicate; exact Hj).
      injection Hu0 as <-. lra.
    - rewrite list_lookup_insert_ne in Hu0 by exact Hne.
      apply lookup_replicate in Hu0 as [-> _]. lra. }
  nra.
Qed.

Lemma logistic_mono (x y : R) : x <= y -> logistic x <= logistic y.
Proof.
  intros Hxy. unfold logistic.
  pose proof (exp_pos (- x)) as Hx. pose proof (exp_pos (- y)) as Hy.
  assert (Hexp : exp (- y) <= exp (- x)).
  { destruct Hxy as [Hlt| ->]; [|lra].
    apply Rlt_le, exp_increasing. lra. }
  unfold Rdiv. rewrite !Rmult_1_l.
  apply Rinv_le_contravar; lra.
Qed.

Lemma logistic_range (x : R) : 0 <= logistic x <= 1.
Proof.
  unfold logistic. pose proof (exp_pos (- x)) as Hx.
  assert (H : 0 < / (1 + exp (- x))) by (apply Rinv_0_lt_compat; lra).
  unfold Rdiv. rewrite Rmult_1_l. split; [lra|].
  rewrite <- Rinv_1. apply Rinv_le_contravar; lra.
Qed.

Lemma kernel_entries_nonneg_witness :
  exists kernel : list (list R),
    get_dispersal_kernel logistic [0.25; 0.75] 0.5 0.01 = Ok kernel
    /\ Forall (Forall (fun x => 0 <= x)) kernel.
Proof.
  apply (kernel_entries_nonneg logistic [0.25; 0.75] 0.5 0.01).
  - exact logistic_mono.
  - exact logistic_range.
  - lra.
  - lra.
Defined.

(** X8.  With a mutation proportion of zero the kernel is the identity
    matrix, whatever the positive mutation scale: nothing moves. *)
Theorem kernel_is_identity_without_mutation
    (ndtr : R -> R) (vec : list R) (mutation_scale : R) :
  0 < mutation_scale ->
  exists kernel : list (list R),
    get_dispersal_kernel ndtr vec 0 mutation_scale = Ok kernel
    /\ length kernel = length vec
    /\ forall i row, kernel !! i = Some row ->
         length row = length vec
         /\ forall j x, row !! j = Some x ->
              x = if decide (i = j) then 1 else 0.
Proof.
  intros Hscale.
  destruct (kernel_columns_exact ndtr vec 0 mutation_scale)
    as (K & HK & HlenK & HrowsK & Hcols).
  exists K. split; [exact HK|]. split; [exact HlenK|].
  intros i row Hrow.
  split; [exact (proj1 (Forall_lookup _ _) HrowsK i row Hrow)|].
  intros j x Hx.
  pose proof (kernel_entry K (length vec) i j row x HrowsK Hrow Hx) as Hentry.
  assert (Hj : (j < length vec)%nat).
  { apply lookup_lt_Some in Hx.
    rewrite (proj1 (Forall_lookup _ _) HrowsK i row Hrow) in Hx. exact Hx. }
  destruct (Hcols j Hj) as (D & HD & Hcol).
  rewrite Hcol in Hentry.
  apply lookup_zip_with_Some in Hentry as (d & u & -> & Hd & Hu).
  rewrite list_lookup_fmap in Hd, Hu.
  destruct (D !! i) as [d0|]; [|discriminate].
  destruct (<[j := 1]> (replicate (length vec) 0) !! i) as [u0|] eqn:Hu0;
    [|discriminate].
  injection Hd as <-. injection Hu as <-.
  destruct (decide (i = j)) as [->|Hne].
  - rewrite list_lookup_insert_eq in Hu0
      by (rewrite length_replicate; exact Hj).
    injection Hu0 as <-. lra.
  - rewrite list_lookup_insert_ne in Hu0 by congruence.
    apply lookup_replicate in Hu0 as [-> _]. lra.
Qed.

Lemma kernel_is_identity_without_mutation_witness :
  exists kernel : list (list R),
    get_dispersal_kernel logistic [0.25; 0.75] 0 0.01 = Ok kernel
    /\ length kernel = length [0.25; 0.75]
    /\ forall i row, kernel !! i = Some row ->
         length row = length [0.25; 0.75]
         /\ forall j x, row !! j = Some x ->
              x = if decide (i = j) then 1 else 0.
Proof.
  apply (kernel_is_identity_without_mutation logistic [0.25; 0.75] 0.01).
  lra.
Defined.

(** ** More on the ODE driver *)

Section ode_facts.

Variable PARAMS : PARAMS_t.
Variable DEFAULT_I0 : R.
Variable dopri5 :
  (R -> R * R -> R * R) -> R * R -> R -> R -> (R * R) * R * bool.

Lemma integrate_loop_keeps (beta_ : R) (ts : list R) :
  forall (solver solver' : ode_solver) (y_out y_out' : list (R * R)) (ind : nat),
    integrate_loop PARAMS dopri5 beta_ solver y_out ind ts = Ok (solver', y_out') ->
    length y_out' = length y_out
    /\ forall k, (k < ind)%nat -> y_out' !! k = y_out !! k.
Proof.
  induction ts as [|t ts IH]; intros solver solver' y_out y_out' ind H.
  - cbn [integrate_loop] in H. apply Ok_inj in H.
    injection H as _ <-. auto.
  - cbn [integrate_loop] in H.
    destruct (successful solver); [|discriminate].
    apply IH in H as [Hlen Hbelow]. split.
    + rewrite Hlen. apply length_insert.
    + intros k Hk. rewrite Hbelow by lia.
      apply list_lookup_insert_ne. lia.
Qed.

(** X9.  [find_soln_given_beta_and_no_control] raises [IndexError] on an
    empty list of times; on a single time it returns the initial state
    without integrating; and whenever it returns, the array has one
    column per output time and its first column is the initial state. *)
Theorem find_soln_shape (beta_ : R) (I0 : option R) :
  let I0' := default DEFAULT_I0 I0 in
  let y0 := (host_growth_initial_area PARAMS * (1 - I0'),
             host_growth_initial_area PARAMS * I0') in
  find_soln_given_beta_and_no_control PARAMS DEFAULT_I0 dopri5 beta_ I0 (Some [])
  = Raise IndexError
  /\ (forall t0,
        find_soln_given_beta_and_no_control PARAMS DEFAULT_I0 dopri5 beta_ I0
          (Some [t0]) = Ok [y0])
  /\ forall t_vals y_out,
       find_soln_given_beta_and_no_control PARAMS DEFAULT_I0 dopri5 beta_ I0
         (Some t_vals) = Ok y_out ->
       length y_out = length t_vals /\ y_out !! 0%nat = Some y0.
Proof.
  intros I0' y0. split; [reflexivity|]. split; [reflexivity|].
  intros t_vals y_out H. unfold find_soln_given_beta_and_no_control in H.
  fold I0' in H. fold y0 in H.
  apply bind_Ok_inv in H as (t0 & Ht0 & H).
  apply bind_Ok_inv in H as ([solver y] & Hloop & H).
  apply Ok_inj in H. subst y_out.
  destruct t_vals as [|t0' [|t1 ts]]; [discriminate| |].
  - cbn in Hloop. apply Ok_inj in Hloop. injection Hloop as <- <-.
    split; reflexivity.
  - cbn [drop integrate_loop successful ode_success] in Hloop.
    apply integrate_loop_keeps in Hloop as [Hlen Hbelow].
    rewrite length_insert, length_replicate in Hlen.
    split; [rewrite length_insert; exact Hlen|].
    rewrite list_lookup_insert_ne by (simpl; lia).
    rewrite Hbelow by lia. reflexivity.
Qed.

(** The success flag of the solver object, once down, stays down. *)
Lemma integrate_loop_raises_when_failed (beta_ : R) (pre : list R) :
  forall (solver : ode_solver) (y_out : list (R * R)) (ind : nat)
         (t_next : R) (ts : list R),
    successful (fold_left (integrate PARAMS dopri5 beta_) pre solver) = false ->
    integrate_loop PARAMS dopri5 beta_ solver y_out ind (pre ++ t_next :: ts)
    = Raise RuntimeError.
Proof.
  induction pre as [|t pre IH]; intros solver y_out ind t_next ts H.
  - cbn in H. cbn [app integrate_loop]. rewrite H. reflexivity.
  - cbn [app integrate_loop].
    destruct (successful solver); [|reflexivity].
    apply IH. exact H.
Qed.

(** X10.  A failure of the integrator on any step but the last is
    reported: if, from the state reached over the times [pre], the step
    to [t_fail] fails and another time follows, [RuntimeError] is
    raised. *)
Theorem find_soln_raises_on_earlier_failure
    (beta_ : R) (I0 : option R) (t0 t_fail t_next : R) (pre ts : list R) :
  let I0' := default DEFAULT_I0 I0 in
  let y0 := (host_growth_initial_area PARAMS * (1 - I0'),
             host_growth_initial_area PARAMS * I0') in
  let solver :=
    fold_left (integrate PARAMS dopri5 beta_) pre
      {| ode_y := y0; ode_t := t0; ode_success := true |} in
  (dopri5 (fun t y => ode_simple PARAMS t y beta_)
     (ode_y solver) (ode_t solver) t_fail).2 = false ->
  find_soln_given_beta_and_no_control PARAMS DEFAULT_I0 dopri5 beta_ I0
    (Some (t0 :: pre ++ t_fail :: t_next :: ts))
  = Raise RuntimeError.
Proof.
  intros I0' y0 solver Hfail. unfold find_soln_given_beta_and_no_control.
  fold I0'. fold y0. cbn [getitem lookup list_lookup mbind result_bind drop].
  rewrite drop_0.
  replace (pre ++ t_fail :: t_next :: ts)
    with ((pre ++ [t_fail]) ++ t_next :: ts)
    by (rewrite <- app_assoc; reflexivity).
  rewrite integrate_loop_raises_when_failed; [reflexivity|].
  rewrite fold_left_app. cbn [fold_left]. fold solver.
  unfold successful, integrate.
  destruct (dopri5 _ (ode_y solver) (ode_t solver) t_fail) as [[y t] ok].
  simpl in Hfail. subst ok. cbn. apply andb_false_r.
Qed.

End ode_facts.

(** Four output times and an integrator that fails at once. *)
Lemma find_soln_raises_on_earlier_failure_witness :
  find_soln_given_beta_and_no_control PARAMS_wheat 0.01 dopri5_failing 0.01 None
    (Some (1456 :: [] ++ 1700 :: 2066 :: [2515]))
  = Raise RuntimeError.
Proof.
  apply (find_soln_raises_on_earlier_failure PARAMS_wheat 0.01 dopri5_failing
           0.01 None 1456 1700 2066 [] [2515]).
  reflexivity.
Defined.

(** X11.  On the calibration path nothing ever reports the integrator:
    for any integrator, failing or not, [find_sev_given_beta_and_no_control]
    and [beta_objective] return a value and raise nothing. *)
Theorem severity_never_raises
    (PARAMS : PARAMS_t) (DEFAULT_I0 : R)
    (dopri5 : (R -> R * R -> R * R) -> R * R -> R -> R -> (R * R) * R * bool)
    (beta_ final_sev : R) (I0 : option R) :
  (exists sev : npfloat,
     find_sev_given_beta_and_no_control PARAMS DEFAULT_I0 dopri5 beta_ I0 = Ok sev)
  /\ exists score : npfloat,
       beta_objective PARAMS DEFAULT_I0 dopri5 beta_ final_sev I0 = Ok score.
Proof.
  destruct (find_soln_default_never_raises PARAMS DEFAULT_I0 dopri5 beta_ I0)
    as (y0 & [S1 I1] & Hsoln).
  assert (Hsev : find_sev_given_beta_and_no_control PARAMS DEFAULT_I0 dopri5 beta_ I0
                 = Ok (fdiv (Fin I1) (Fin (S1 + I1)))).
  { unfold find_sev_given_beta_and_no_control. rewrite Hsoln. reflexivity. }
  split; [eauto|].
  unfold beta_objective. rewrite Hsev. cbn [mbind result_bind]. eauto.
Qed.

(** ** Range, monotonicity and errors of the fungicide effect *)














(** X15.  [Fungicide.effect] and [FungicideNoDecay.effect] compute
    [log(1/value)] before anything else: whatever the object and the
    time, also before the first spray, a trait value of zero raises
    [ZeroDivisionError] and a negative one raises [ValueError]. *)
Theorem effect_rejects_nonpositive_trait
    (F : Fungicide.self_t) (FN : FungicideNoDecay.self_t) (value t : R) :
  (value = 0 ->
   Fungicide.effect F value t = Raise ZeroDivisionError
   /\ FungicideNoDecay.effect FN value t = Raise ZeroDivisionError)
  /\ (value < 0 ->
      Fungicide.effect F value t = Raise ValueError
      /\ FungicideNoDecay.effect FN value t = Raise ValueError).
Proof.
  split.
  - intros ->. unfold Fungicide.effect, FungicideNoDecay.effect, py_div.
    rewrite !decide_True by reflexivity. split; reflexivity.
  - intros Hv. unfold Fungicide.effect, FungicideNoDecay.effect, py_div.
    rewrite !decide_False by lra. cbn [mbind result_bind]. unfold py_log.
    assert (Hneg : ~ 0 < 1 / value).
    { unfold Rdiv. rewrite Rmult_1_l.
      pose proof (Rinv_lt_0_compat value Hv). lra. }
    rewrite !decide_False by exact Hneg. split; reflexivity.
Qed.




(** ** More on configuration objects *)

Ltac attr_lookup :=
  repeat (rewrite lookup_insert_ne by discriminate);
  rewrite lookup_insert_eq.

(** X18.  The removal cannot be repeated: on a constructed [Config] a
    second call of [remove_host_attrs] raises [AttributeError] at the
    first key and leaves the object as the first call left it. *)
Theorem remove_host_attrs_twice
    (consts : consts_t) (fit : list fit_row) (args : Config_args)
    (cfg : gmap string pyval) :
  Config.init consts fit args = Ok cfg ->
  exists cfg' : gmap string pyval,
    Config.remove_host_attrs cfg = (cfg', Ok ())
    /\ Config.remove_host_attrs cfg' = (cfg', Raise AttributeError).
Proof.
  intros Hinit.
  destruct (Config_init_attrs consts fit args cfg Hinit) as [Hattrs _].
  destruct (delattr_each_frame host_attrs cfg host_attrs_NoDup)
    as (cfg' & Hrun & Hgone & _).
  { intros key Hkey. apply Hattrs.
    apply list_elem_of_In in Hkey. apply list_elem_of_In.
    cbn [In host_attrs] in *. intuition. }
  exists cfg'. split; [exact Hrun|].
  unfold Config.remove_host_attrs, remove_host_attrs_from_config, host_attrs.
  cbn [delattr_each]. rewrite (Hgone "n_l"%string); [reflexivity|].
  apply list_elem_of_In. left. reflexivity.
Qed.

Lemma remove_host_attrs_twice_witness :
  exists cfg cfg' : gmap string pyval,
    Config.init consts_example fit_example args_example = Ok cfg
    /\ Config.remove_host_attrs cfg = (cfg', Ok ())
    /\ Config.remove_host_attrs cfg' = (cfg', Raise AttributeError).
Proof.
  destruct Config_init_example as [cfg Hcfg].
  destruct (remove_host_attrs_twice _ _ _ cfg Hcfg) as (cfg' & H1 & H2).
  exists cfg, cfg'. auto.
Defined.



(** ** Logit transform *)




(** ** Economics *)

Lemma np_broadcast_same {A B C : Type} (f : A -> B -> C)
    (a : list A) (b : list B) :
  length a = length b -> np_broadcast f a b = Ok (zip_with f a b).
Proof. intros H. unfold np_broadcast. rewrite decide_True by exact H. reflexivity. Qed.

Lemma zip_plus_zeros (l : list R) :
  zip_with Rplus l (replicate (length l) 0) = l.
Proof.
  induction l as [|x l IH]; simpl; [reflexivity|].
  rewrite IH. f_equal. lra.
Qed.

Lemma did_apply_zeros (n : nat) : did_apply (replicate n 0) = replicate n 0.
Proof.
  induction n as [|n IH]; simpl; [reflexivity|].
  rewrite decide_False by lra. f_equal. exact IH.
Qed.

Lemma did_apply_clip (doses : list R) :
  map (fun a => if decide (a > 0) then 1 else a) (did_apply doses)
  = did_apply doses.
Proof.
  unfold did_apply. rewrite map_map. apply map_ext. intros d.
  destruct (decide (d > 0)).
  - rewrite decide_True by lra. reflexivity.
  - rewrite decide_False by lra. reflexivity.
Qed.

Lemma length_did_apply (doses : list R) : length (did_apply doses) = length doses.
Proof. apply length_map. Qed.

(** X21.  A mixture whose second fungicide is not applied costs and
    earns what the first fungicide alone does: with [doses_B] all zero,
    [economic_yield_mixture] equals [economic_yield] on [doses_A], errors
    included. *)
Theorem economic_yield_mixture_without_second
    (PARAMS_econ : PARAMS_econ_t) (yield_vec sprays_vec doses_A : list R) :
  economic_yield_mixture PARAMS_econ yield_vec sprays_vec doses_A
    (replicate (length doses_A) 0)
  = economic_yield PARAMS_econ yield_vec sprays_vec doses_A.
Proof.
  unfold economic_yield_mixture, economic_yield. cbv zeta.
  rewrite did_apply_zeros.
  rewrite (np_broadcast_same Rplus (did_apply doses_A))
    by (rewrite length_did_apply, length_replicate; reflexivity).
  cbn [mbind result_bind].
  rewrite <- (length_did_apply doses_A) at 1.
  rewrite zip_plus_zeros, did_apply_clip.
  rewrite (np_broadcast_same Rplus doses_A)
    by (rewrite length_replicate; reflexivity).
  rewrite zip_plus_zeros.
  destruct (np_broadcast Rmult _ (did_apply doses_A)); reflexivity.
Qed.

(** X22.  On arrays of one length [economic_yield_mixture] gives, entry
    by entry, the revenue less the cost of the chemical for both doses
    and less one application cost per spray when either dose is
    positive: applying both products in one pass is charged once. *)
Theorem economic_yield_mixture_entries
    (PARAMS_econ : PARAMS_econ_t) (yield_vec sprays_vec doses_A doses_B : list R) :
  length sprays_vec = length yield_vec ->
  length doses_A = length yield_vec ->
  length doses_B = length yield_vec ->
  exists profit : list R,
    economic_yield_mixture PARAMS_econ yield_vec sprays_vec doses_A doses_B
    = Ok profit
    /\ length profit = length yield_vec
    /\ forall i yld sprays dA dB,
         yield_vec !! i = Some yld -> sprays_vec !! i = Some sprays ->
         doses_A !! i = Some dA -> doses_B !! i = Some dB ->
         profit !! i
         = Some (wheat_price PARAMS_econ * yld
                 - application_cost_per_spray PARAMS_econ * sprays
                   * (if decide (dA > 0 \/ dB > 0) then 1 else 0)
                 - chemical_cost_per_spray PARAMS_econ * sprays * (dA + dB)).
Proof.
  intros Hs HA HB. unfold economic_yield_mixture. cbv zeta.
  rewrite (np_broadcast_same Rplus (did_apply doses_A))
    by (rewrite !length_did_apply; lia).
  cbn [mbind result_bind].
  rewrite (np_broadcast_same Rmult)
    by (rewrite !length_map, length_zip_with, !length_did_apply; lia).
  cbn [mbind result_bind].
  rewrite (np_broadcast_same Rplus doses_A) by lia.
  cbn [mbind result_bind].
  rewrite (np_broadcast_same Rmult)
    by (rewrite !length_map, length_zip_with; lia).
  cbn [mbind result_bind].
  rewrite (np_broadcast_same Rminus)
    by (rewrite !length_zip_with, !length_map, length_zip_with,
          !length_did_apply; lia).
  cbn [mbind result_bind].
  rewrite (np_broadcast_same Rminus)
    by (rewrite !length_zip_with, !length_map, !length_zip_with,
          !length_did_apply; lia).
  eexists. split; [reflexivity|]. split.
  - rewrite !length_zip_with, !length_map, !length_zip_with,
      !length_did_apply. lia.
  - intros i yld sprays dA dB Hy Hsp HdA HdB.
    unfold did_apply.
    rewrite !lookup_zip_with, !list_lookup_fmap, !lookup_zip_with,
      !list_lookup_fmap, Hy, Hsp, HdA, HdB.
    cbn [fmap option_fmap option_map mbind option_bind]. f_equal.
    destruct (decide (dA > 0)), (decide (dB > 0)).
    + rewrite decide_True by lra. rewrite decide_True by (left; lra). lra.
    + rewrite decide_True by lra. rewrite decide_True by (left; lra). lra.
    + rewrite decide_True by lra. rewrite decide_True by (right; lra). lra.
    + rewrite decide_False by lra. rewrite decide_False by (intros [?|?]; lra).
      lra.
Qed.

Lemma economic_yield_mixture_entries_witness :
  exists profit : list R,
    economic_yield_mixture
      {| application_cost_per_spray := 10; chemical_cost_per_spray := 30;
         wheat_price := 117 |} [9; 10] [2; 2] [1; 0] [0.5; 0] = Ok profit
    /\ length profit = 2%nat.
Proof.
  destruct (economic_yield_mixture_entries
              {| application_cost_per_spray := 10; chemical_cost_per_spray := 30;
                 wheat_price := 117 |} [9; 10] [2; 2] [1; 0] [0.5; 0]
              eq_refl eq_refl eq_refl) as (profit & H & Hlen & _).
  exists profit. split; assumption.
Defined.

(** ** Severity and the truncated exponential density *)

(** X23.  On arrays of one length [disease_severity] raises nothing and
    gives, for an entry with infected and susceptible areas that are not
    negative, a fraction in [[0, 1]] when some area is left and NaN when
    both areas are zero. *)
Theorem disease_severity_entries (final_Is final_Ss : list R) :
  length final_Is = length final_Ss ->
  exists sev : list npfloat,
    disease_severity final_Is final_Ss = Ok sev
    /\ length sev = length final_Is
    /\ forall i I_ S_,
         final_Is !! i = Some I_ -> final_Ss !! i = Some S_ ->
         0 <= I_ -> 0 <= S_ ->
         (0 < I_ + S_ ->
            exists x, sev !! i = Some (Fin x) /\ 0 <= x <= 1
                      /\ x = I_ / (I_ + S_))
         /\ (I_ + S_ = 0 -> sev !! i = Some NaN).
Proof.
  intros Hlen. unfold disease_severity.
  rewrite (np_broadcast_same Rplus) by exact Hlen.
  cbn [mbind result_bind].
  rewrite np_broadcast_same by (rewrite length_zip_with; lia).
  eexists. split; [reflexivity|]. split.
  - rewrite !length_zip_with. lia.
  - intros i I_ S_ HI HS HI0 HS0.
    rewrite !lookup_zip_with, HI, HS.
    cbn [mbind option_bind]. split.
    + intros Hpos. exists (I_ / (I_ + S_)).
      rewrite fdiv_Fin by lra. split; [reflexivity|].
      split; [|reflexivity].
      assert (Hinv : 0 < / (I_ + S_)) by (apply Rinv_0_lt_compat, Hpos).
      unfold Rdiv. split; [nra|].
      apply (Rmult_le_reg_r (I_ + S_)); [exact Hpos|].
      rewrite Rmult_assoc, Rinv_l by lra. lra.
    + intros Hzero. assert (I_ = 0) by lra. subst I_.
      simpl. rewrite Hzero. rewrite !decide_True by reflexivity. reflexivity.
Qed.

Lemma disease_severity_entries_witness :
  exists sev : list npfloat,
    disease_severity [0.2; 0] [0.6; 0] = Ok sev /\ length sev = 2%nat.
Proof.
  destruct (disease_severity_entries [0.2; 0] [0.6; 0] eq_refl)
    as (sev & H & Hlen & _).
  exists sev. split; assumption.
Defined.


(** ** Mean and variance of a distribution *)

Lemma mapM_Ok_Forall2 {A B : Type} (f : A -> result B) (P : A -> B -> Prop)
    (l : list A) :
  (forall x, x ∈ l -> exists y, f x = Ok y /\ P x y) ->
  exists k, mapM f l = Ok k /\ Forall2 P l k.
Proof.
  induction l as [|x l IH]; intros H.
  - exists []. split; [reflexivity|constructor].
  - destruct (H x) as (y & Hy & HP); [apply elem_of_cons; auto|].
    destruct IH as (k & Hk & HF).
    { intros z Hz. apply H, elem_of_cons. auto. }
    exists (y :: k). split; [|constructor; assumption].
    cbn [mapM]. rewrite Hy. cbn [mbind result_bind]. rewrite Hk. reflexivity.
Qed.

Lemma mapM_seq_lookup {B : Type} (f : nat -> result B) (P : nat -> B -> Prop)
    (n : nat) :
  (forall i, (i < n)%nat -> exists y, f i = Ok y /\ P i y) ->
  exists k, mapM f (seq 0 n) = Ok k
            /\ length k = n
            /\ forall i y, k !! i = Some y -> P i y.
Proof.
  intros H.
  destruct (mapM_Ok_Forall2 f P (seq 0 n)) as (k & Hk & HF).
  { intros i Hi. apply elem_of_seq in Hi. apply H. lia. }
  exists k. split; [exact Hk|]. split.
  - apply Forall2_length in HF. rewrite length_seq in HF. auto.
  - intros i y Hy.
    destruct (Forall2_lookup_r _ _ _ _ _ HF Hy) as (x & Hx & HP).
    apply lookup_seq in Hx as [-> _]. exact HP.
Qed.

Lemma length_column (dist : list (list R)) (yr : nat) :
  Forall (fun row => (yr < length row)%nat) dist ->
  length (column dist yr) = length dist.
Proof.
  intros H. induction H as [|row dist Hrow _ IH]; [reflexivity|].
  destruct (lookup_lt_is_Some_2 row yr Hrow) as [x Hx].
  unfold column. cbn [omap list_omap]. rewrite Hx. simpl.
  f_equal. exact IH.
Qed.

Lemma weighted_sum_bounds (lo hi : R) (p tv : list R) :
  Forall (fun w => 0 <= w) p ->
  Forall (fun x => lo <= x <= hi) tv ->
  length p = length tv ->
  lo * py_sum p <= py_sum (zip_with Rmult p tv) <= hi * py_sum p.
Proof.
  intros Hp. revert tv. induction Hp as [|w p Hw _ IH]; intros tv Htv Hlen.
  - simpl. rewrite py_sum_nil. lra.
  - destruct tv as [|x tv]; [discriminate|].
    apply Forall_cons in Htv as [Hx Htv].
    simpl. rewrite !py_sum_cons.
    specialize (IH tv Htv ltac:(simpl in Hlen; lia)). nra.
Qed.

Lemma get_dist_mean_ok (dist : list (list R)) (traitvec : list R) :
  Forall (fun row => length row = shape1 dist) dist ->
  length traitvec = length dist ->
  exists means : list R,
    get_dist_mean dist traitvec = Ok means
    /\ length means = shape1 dist
    /\ forall yr m, means !! yr = Some m ->
         m = py_sum (zip_with Rmult (column dist yr) traitvec)
         /\ (yr < shape1 dist)%nat.
Proof.
  intros Hrect Hlen. unfold get_dist_mean.
  apply (mapM_seq_lookup
           (fun yr => np_dot (column dist yr) traitvec)
           (fun yr m =>
              m = py_sum (zip_with Rmult (column dist yr) traitvec)
              /\ (yr < shape1 dist)%nat)).
  intros yr Hyr. eexists. split; [|split; [reflexivity|exact Hyr]].
  unfold np_dot. rewrite decide_True; [reflexivity|].
  rewrite length_column; [lia|].
  eapply Forall_impl; [exact Hrect|]. simpl. intros row Hrow. lia.
Qed.

(** X25.  For a rectangular array of distributions and a trait vector
    with one entry per row, [get_dist_mean] returns one mean per year,
    the dot product of that year's column with the traits; when the
    column is a probability vector the mean lies between any bounds that
    hold for all the traits.  A trait vector of another length raises
    [ValueError] as soon as there is a year. *)
Theorem get_dist_mean_bounds (dist : list (list R)) (traitvec : list R) :
  Forall (fun row => length row = shape1 dist) dist ->
  (length traitvec = length dist ->
   exists means : list R,
     get_dist_mean dist traitvec = Ok means
     /\ length means = shape1 dist
     /\ forall yr m, means !! yr = Some m ->
          m = py_sum (zip_with Rmult (column dist yr) traitvec)
          /\ forall lo hi,
               Forall (fun w => 0 <= w) (column dist yr) ->
               py_sum (column dist yr) = 1 ->
               Forall (fun x => lo <= x <= hi) traitvec ->
               lo <= m <= hi)
  /\ (length traitvec <> length dist -> (1 <= shape1 dist)%nat ->
      get_dist_mean dist traitvec = Raise ValueError).
Proof.
  intros Hrect.
  assert (Hcol : forall yr, (yr < shape1 dist)%nat ->
            length (column dist yr) = length dist).
  { intros yr Hyr. apply length_column.
    eapply Forall_impl; [exact Hrect|]. simpl. intros row Hrow. lia. }
  split.
  - intros Hlen.
    destruct (get_dist_mean_ok dist traitvec Hrect Hlen)
      as (means & Hmeans & Hlenm & Hall).
    exists means. split; [exact Hmeans|]. split; [exact Hlenm|].
    intros yr m Hm. destruct (Hall yr m Hm) as [-> Hyr].
    split; [reflexivity|]. intros lo hi Hpos Hsum Htv.
    pose proof (weighted_sum_bounds lo hi (column dist yr) traitvec Hpos Htv)
      as Hb.
    rewrite Hsum in Hb. rewrite Hcol in Hb by exact Hyr.
    specialize (Hb ltac:(lia)). lra.
  - intros Hne Hyears. unfold get_dist_mean.
    destruct (shape1 dist) as [|n] eqn:Hn; [lia|].
    cbn [seq mapM]. unfold np_dot.
    rewrite decide_False; [reflexivity|].
    rewrite Hcol by lia. congruence.
Qed.

Lemma get_dist_mean_bounds_witness :
  exists means : list R,
    get_dist_mean [[0.25; 0]; [0.75; 1]] [0.25; 0.75] = Ok means
    /\ length means = 2%nat.
Proof.
  destruct (get_dist_mean_bounds [[0.25; 0]; [0.75; 1]] [0.25; 0.75])
    as [H _].
  - repeat constructor.
  - destruct (H eq_refl) as (means & Hm & Hlen & _).
    exists means. split; assumption.
Defined.

#[local] Instance R_inhabited : Inhabited R := populate 0.

Lemma zip_with_by_index {C : Type} (f : R -> R -> C) (a b : list R) :
  length a = length b ->
  zip_with f a b = map (fun i => f (a !!! i) (b !!! i)) (seq 0 (length a)).
Proof.
  intros Hlen. apply list_eq. intros i.
  rewrite lookup_zip_with, list_lookup_fmap.
  destruct (decide (i < length a)%nat) as [Hi|Hi].
  - rewrite lookup_seq_lt by exact Hi.
    destruct (lookup_lt_is_Some_2 a i Hi) as [x Hx].
    destruct (lookup_lt_is_Some_2 b i ltac:(lia)) as [y Hy].
    rewrite Hx, Hy. simpl.
    rewrite (list_lookup_total_correct a i x Hx),
      (list_lookup_total_correct b i y Hy). reflexivity.
  - rewrite lookup_seq_ge by lia.
    rewrite (lookup_ge_None_2 a i) by lia. reflexivity.
Qed.

Lemma variance_loop_value (dist : list (list R)) (traitvec means : list R)
    (yy : nat) (m : R) (dds : list nat) :
  Forall (fun row => length row = shape1 dist) dist ->
  length traitvec = length dist ->
  (yy < shape1 dist)%nat ->
  means !! yy = Some m ->
  Forall (fun dd => (dd < length dist)%nat) dds ->
  forall variance,
    variance_loop dist traitvec means yy dds variance
    = Ok (variance
          + py_sum (map (fun dd => column dist yy !!! dd
                                   * (traitvec !!! dd - m) ^ 2) dds)).
Proof.
  intros Hrect Hlen Hyy Hm Hdds.
  induction Hdds as [|dd dds Hdd _ IH]; intros variance.
  - simpl. rewrite py_sum_nil. f_equal. lra.
  - destruct (lookup_lt_is_Some_2 dist dd Hdd) as [row Hrow].
    assert (Hrowlen : length row = shape1 dist)
      by (exact (proj1 (Forall_lookup _ _) Hrect dd row Hrow)).
    destruct (lookup_lt_is_Some_2 row yy ltac:(lia)) as [d Hd].
    destruct (lookup_lt_is_Some_2 traitvec dd ltac:(lia)) as [x Hx].
    pose proof (kernel_entry dist (shape1 dist) dd yy row d Hrect Hrow Hd)
      as Hcol.
    cbn [variance_loop]. unfold getitem.
    rewrite Hrow. cbn [mbind result_bind]. rewrite Hd.
    cbn [mbind result_bind]. rewrite Hx. cbn [mbind result_bind].
    rewrite Hm. cbn [mbind result_bind]. rewrite IH. f_equal.
    cbn [map]. rewrite py_sum_cons.
    rewrite (list_lookup_total_correct _ _ _ Hcol),
      (list_lookup_total_correct _ _ _ Hx). lra.
Qed.

(** X26.  For a rectangular array of distributions and a trait vector
    with one entry per row, [get_dist_var] returns one variance per year:
    the sum over the bins of the mass times the squared distance of the
    trait from that year's mean.  It is never negative when the masses
    are not. *)
Theorem get_dist_var_values (dist : list (list R)) (traitvec : list R) :
  Forall (fun row => length row = shape1 dist) dist ->
  length traitvec = length dist ->
  exists means variances : list R,
    get_dist_mean dist traitvec = Ok means
    /\ get_dist_var dist traitvec = Ok variances
    /\ length variances = shape1 dist
    /\ forall yy v, variances !! yy = Some v ->
         exists m,
           means !! yy = Some m
           /\ v = py_sum (zip_with (fun d x => d * (x - m) ^ 2)
                            (column dist yy) traitvec)
           /\ (Forall (fun w => 0 <= w) (column dist yy) -> 0 <= v).
Proof.
  intros Hrect Hlen.
  destruct (get_dist_mean_ok dist traitvec Hrect Hlen)
    as (means & Hmeans & Hlenm & _).
  assert (Hcol : forall yr, (yr < shape1 dist)%nat ->
            length (column dist yr) = length dist).
  { intros yr Hyr. apply length_column.
    eapply Forall_impl; [exact Hrect|]. simpl. intros row Hrow. lia. }
  unfold get_dist_var. rewrite Hmeans. cbn [mbind result_bind]. cbv zeta.
  destruct (mapM_seq_lookup
              (fun yy => variance_loop dist traitvec means yy
                           (seq 0 (length dist)) 0)
              (fun yy v => exists m,
                 means !! yy = Some m
                 /\ v = py_sum (zip_with (fun d x => d * (x - m) ^ 2)
                                  (column dist yy) traitvec)
                 /\ (yy < shape1 dist)%nat)
              (shape1 dist)) as (vars & Hvars & Hlenv & Hall).
  { intros yy Hyy.
    destruct (lookup_lt_is_Some_2 means yy ltac:(lia)) as [m Hm].
    eexists. split.
    - apply (variance_loop_value dist traitvec means yy m); try assumption.
      apply Forall_forall. intros dd Hdd. apply elem_of_seq in Hdd. lia.
    - exists m. split; [exact Hm|]. split; [|exact Hyy].
      rewrite zip_with_by_index by (rewrite Hcol by exact Hyy; lia).
      rewrite Hcol by exact Hyy. rewrite Rplus_0_l. reflexivity. }
  exists means, vars. split; [reflexivity|]. split; [exact Hvars|].
  split; [exact Hlenv|].
  intros yy v Hv. destruct (Hall yy v Hv) as (m & Hm & -> & Hyy).
  exists m. split; [exact Hm|]. split; [reflexivity|].
  intros Hpos.
  assert (Hgen : forall p tv : list R, Forall (fun w => 0 <= w) p ->
            0 <= py_sum (zip_with (fun d x => d * (x - m) ^ 2) p tv)).
  { intros p tv Hp. revert tv. induction Hp as [|w p Hw _ IH]; intros tv.
    - simpl. rewrite py_sum_nil. lra.
    - destruct tv as [|x tv]; cbn [zip_with]; [rewrite py_sum_nil; lra|].
      rewrite py_sum_cons. specialize (IH tv).
      pose proof (Rmult_le_pos _ _ Hw (pow2_ge_0 (x - m))). lra. }
  apply Hgen, Hpos.
Qed.

Lemma get_dist_var_values_witness :
  exists means variances : list R,
    get_dist_mean [[0.25; 0]; [0.75; 1]] [0.25; 0.75] = Ok means
    /\ get_dist_var [[0.25; 0]; [0.75; 1]] [0.25; 0.75] = Ok variances
    /\ length variances = 2%nat.
Proof.
  destruct (get_dist_var_values [[0.25; 0]; [0.75; 1]] [0.25; 0.75])
    as (means & vars & Hm & Hv & Hlen & _).
  - repeat constructor.
  - reflexivity.
  - exists means, vars. auto.
Defined.

(** ** Shape parameters and keys from a configuration *)

Lemma Config_init_lookups (consts : consts_t) (fit : list fit_row)
    (args : Config_args) (cfg : gmap string pyval) :
  Config.init consts fit args = Ok cfg ->
  cfg !! "sprays"%string = Some (arg_sprays args)
  /\ cfg !! "host_on"%string = Some (arg_host_on args)
  /\ exists k_mu k_b l_mu l_b,
       cfg !! "k_mu"%string = Some (VFloat k_mu)
       /\ cfg !! "k_b"%string = Some (VFloat k_b)
       /\ cfg !! "l_mu"%string = Some (VFloat l_mu)
       /\ cfg !! "l_b"%string = Some (VFloat l_b).
Proof.
  unfold Config.init. cbv zeta. intros H.
  destruct (decide (length _ = 2%nat)); [|discriminate].
  apply bind_Ok_inv in H as (k_mu & _ & H).
  apply bind_Ok_inv in H as (k_b & _ & H).
  apply bind_Ok_inv in H as (l_mu & _ & H).
  apply bind_Ok_inv in H as (l_b & _ & H).
  apply Ok_inj in H. subst cfg.
  split; [|split; [|exists k_mu, k_b, l_mu, l_b]];
    repeat split; repeat case_decide; attr_lookup; reflexivity.
Qed.



Lemma product_lookup {A B C : Type} (g : A -> B -> C) (l : list A) (k : list B)
    (i j : nat) (x : A) (y : B) :
  l !! i = Some x -> k !! j = Some y ->
  (a ← l; map (g a) k) !! (i * length k + j)%nat = Some (g x y).
Proof.
  revert i. induction l as [|a l IH]; intros i Hx Hy; [discriminate|].
  rewrite bind_cons. destruct i as [|i].
  - injection Hx as ->. rewrite lookup_app_l.
    + simpl. rewrite list_lookup_fmap, Hy. reflexivity.
    + rewrite length_map. apply lookup_lt_Some in Hy. simpl. lia.
  - rewrite lookup_app_r by (rewrite length_map; simpl; lia).
    rewrite length_map.
    replace (S i * length k + j - length k)%nat with (i * length k + j)%nat
      by (simpl; lia).
    apply IH; assumption.
Qed.

Lemma product_length {A B C : Type} (g : A -> B -> C) (l : list A) (k : list B) :
  length (a ← l; map (g a) k) = (length l * length k)%nat.
Proof.
  induction l as [|a l IH]; [reflexivity|].
  rewrite bind_cons, length_app, length_map, IH. simpl. lia.
Qed.

(** X28.  On a constructed [Config] whose sprays are a list of integers
    and whose host settings are a list of booleans, [keys_from_config]
    returns one key per pair, the sprays outermost, [spray_<n>_host_<Y|N>]
    with [N] written for a spray count of zero.  With the constructor's
    default [sprays=None] it raises [TypeError], and after
    [remove_host_attrs] it raises [AttributeError]. *)
Theorem keys_from_config_on_Config
    (py_str_float : R -> string)
    (consts : consts_t) (fit : list fit_row) (args : Config_args)
    (cfg : gmap string pyval) :
  Config.init consts fit args = Ok cfg ->
  (forall sprays host,
     arg_sprays args = VInts sprays -> arg_host_on args = VBools host ->
     exists keys : list string,
       keys_from_config py_str_float cfg = Ok keys
       /\ length keys = (length sprays * length host)%nat
       /\ forall i j (spray : Z) (hh : bool),
            sprays !! i = Some spray -> host !! j = Some hh ->
            keys !! (i * length host + j)%nat
            = Some ("spray_"
                    +:+ (if decide (spray = 0%Z) then "N" else pretty spray)
                    +:+ "_host_" +:+ (if hh then "Y" else "N"))%string)
  /\ (arg_sprays args = VNone ->
      keys_from_config py_str_float cfg = Raise TypeError)
  /\ (forall sprays cfg',
        arg_sprays args = VInts sprays ->
        Config.remove_host_attrs cfg = (cfg', Ok ()) ->
        keys_from_config py_str_float cfg' = Raise AttributeError).
Proof.
  intros Hinit.
  destruct (Config_init_lookups consts fit args cfg Hinit)
    as (Hsprays & Hhost & _).
  split; [|split].
  - intros sprays host Hs Hh.
    set (g := fun (spray host : string) =>
           ("spray_" +:+ (if decide (spray = "0") then "N" else spray)
            +:+ "_host_" +:+ host)%string).
    set (hs := map (fun hh : bool => if hh then "Y" else "N")%string host).
    assert (Hkeys : keys_from_config py_str_float cfg
                    = Ok (a ← map pretty sprays; map (g a) hs)).
    { unfold keys_from_config, getattr. rewrite Hsprays, Hhost, Hs, Hh.
      cbn [mbind result_bind str_items truth_items]. f_equal. }
    eexists. split; [exact Hkeys|]. split.
    + rewrite product_length. unfold hs. rewrite !length_map. reflexivity.
    + intros i j spray hh Hi Hj.
      replace (length host) with (length hs)
        by (unfold hs; apply length_map).
      rewrite (product_lookup g _ hs i j (pretty spray)
                 (if hh then "Y" else "N")%string).
      * unfold g. f_equal. f_equal. f_equal.
        destruct (decide (spray = 0%Z)) as [->|Hne].
        -- rewrite decide_True by reflexivity. reflexivity.
        -- rewrite decide_False; [reflexivity|].
           intros Heq. apply Hne.
           apply (inj (pretty : Z -> string)). exact Heq.
      * rewrite list_lookup_fmap, Hi. reflexivity.
      * unfold hs. rewrite list_lookup_fmap, Hj. reflexivity.
  - intros Hs. unfold keys_from_config, getattr.
    rewrite Hsprays, Hs. reflexivity.
  - intros sprays cfg' Hs Hrun.
    destruct (Config_init_attrs consts fit args cfg Hinit) as [Hattrs _].
    destruct (delattr_each_frame host_attrs cfg host_attrs_NoDup)
      as (cfg'' & Hrun' & Hgone & Hkept).
    { intros key Hkey. apply Hattrs.
      apply list_elem_of_In in Hkey. apply list_elem_of_In.
      cbn [In host_attrs] in *. intuition. }
    unfold Config.remove_host_attrs, remove_host_attrs_from_config in Hrun.
    rewrite Hrun' in Hrun. injection Hrun as <-.
    unfold keys_from_config, getattr.
    rewrite (Hkept "sprays"%string)
      by (apply (bool_decide_unpack _); vm_compute; exact I).
    rewrite Hsprays, Hs. cbn [mbind result_bind str_items].
    rewrite (Hgone "host_on"%string); [reflexivity|].
    apply (bool_decide_unpack _). vm_compute. exact I.
Qed.

Lemma keys_from_config_on_Config_witness :
  exists cfg keys,
    Config.init consts_example fit_example args_example = Ok cfg
    /\ keys_from_config (fun _ => "") cfg = Ok keys
    /\ length keys = (1 * 1)%nat.
Proof.
  destruct Config_init_example as [cfg Hcfg].
  destruct (keys_from_config_on_Config (fun _ => "") _ _ _ cfg Hcfg)
    as (H & _).
  destruct (H [1%Z] [false] eq_refl eq_refl) as (keys & Hk & Hlen & _).
  exists cfg, keys. auto.
Defined.

(** ** Times of the model output *)

#[local] Instance Rle_total : Total Rle.
Proof. intros x y. destruct (Rle_dec x y); [left|right]; lra. Qed.

#[local] Instance Rle_transitive : Transitive Rle.
Proof. intros x y z. apply Rle_trans. Qed.

Lemma linspace_in_range (a b : R) (num : nat) (x : R) :
  (2 <= num)%nat -> a <= b -> x ∈ linspace a b num -> a <= x <= b.
Proof.
  intros Hnum Hab Hx. apply list_elem_of_lookup in Hx as [i Hi].
  assert (Hlt : (i < num)%nat).
  { apply lookup_lt_Some in Hi. rewrite length_linspace in Hi. exact Hi. }
  rewrite linspace_lookup in Hi by lia. injection Hi as <-.
  assert (Hd : 0 < INR (num - 1)) by (apply lt_0_INR; lia).
  assert (Hi0 : 0 <= INR i) by apply pos_INR.
  assert (Hi1 : INR i <= INR (num - 1)) by (apply le_INR; lia).
  assert (Hfrac : 0 <= INR i / INR (num - 1) <= 1).
  { split.
    - apply Rmult_le_pos; [exact Hi0|]. apply Rlt_le, Rinv_0_lt_compat, Hd.
    - apply (Rmult_le_reg_r (INR (num - 1))); [exact Hd|].
      unfold Rdiv. rewrite Rmult_assoc, Rinv_l by lra. lra. }
  replace (INR i * ((b - a) / INR (num - 1)))
    with (INR i / INR (num - 1) * (b - a)) by (field; lra).
  split; nra.
Qed.

(** X29.  [get_model_times] returns 102 times in ascending order: the
    100 equally spaced points from [T_1] to [T_end] together with the two
    spray times [T_2] and [T_3], each kept (also when it coincides with a
    point).  When [T_2] and [T_3] lie between [T_1] and [T_end], so does
    every time returned. *)
Theorem get_model_times_sorted (PARAMS : PARAMS_t) :
  let times := get_model_times PARAMS in
  length times = 102%nat
  /\ StronglySorted Rle times
  /\ times ≡ₚ linspace (T_1 PARAMS) (T_end PARAMS) 100
               ++ [T_2 PARAMS; T_3 PARAMS]
  /\ T_2 PARAMS ∈ times /\ T_3 PARAMS ∈ times
  /\ (T_1 PARAMS <= T_2 PARAMS <= T_end PARAMS ->
      T_1 PARAMS <= T_3 PARAMS <= T_end PARAMS ->
      forall t, t ∈ times -> T_1 PARAMS <= t <= T_end PARAMS).
Proof.
  cbv zeta. unfold get_model_times. cbv zeta.
  set (l := linspace (T_1 PARAMS) (T_end PARAMS) 100 ++ [T_2 PARAMS; T_3 PARAMS]).
  pose proof (merge_sort_Permutation Rle l) as Hperm.
  split; [|split; [|split; [|split; [|split]]]].
  - rewrite Hperm. unfold l. rewrite length_app, length_linspace. reflexivity.
  - apply StronglySorted_merge_sort; typeclasses eauto.
  - exact Hperm.
  - rewrite Hperm. unfold l. apply elem_of_app. right. set_solver.
  - rewrite Hperm. unfold l. apply elem_of_app. right. set_solver.
  - intros H2 H3 t Ht. rewrite Hperm in Ht. unfold l in Ht.
    apply elem_of_app in Ht as [Ht|Ht].
    + apply (linspace_in_range _ _ 100 t); [lia|lra|exact Ht].
    + apply elem_of_cons in Ht as [->|Ht]; [lra|].
      apply list_elem_of_singleton in Ht. subst t. lra.
Qed.

(** ** Configuration for the asymptote model *)

(** X30.  [get_asymptote_config] fails exactly as the constructor does.
    When it returns, the six host attributes are gone, [curvature] is the
    keyword argument or 10, and [k_mu], [k_b] are the keyword arguments
    only if both were given: with one of them missing the other is
    ignored and both take the defaults 0.99 and 0.5, whatever the fitted
    table says. *)
Theorem get_asymptote_config_attrs
    (consts : consts_t) (fit : list fit_row) (kwargs : asymptote_kwargs) :
  (forall e,
     Config.init consts fit (with_verbose (kw_config kwargs) false) = Raise e ->
     get_asymptote_config consts fit kwargs = Raise e)
  /\ forall cfg,
       Config.init consts fit (with_verbose (kw_config kwargs) false) = Ok cfg ->
       exists cf : gmap string pyval,
         get_asymptote_config consts fit kwargs = Ok cf
         /\ (forall key, key ∈ host_attrs -> getattr cf key = Raise AttributeError)
         /\ cf !! "curvature"%string
            = Some (default (VInt 10) (kw_curvature kwargs))
         /\ (forall k_mu k_b,
               kw_k_mu kwargs = Some k_mu -> kw_k_b kwargs = Some k_b ->
               cf !! "k_mu"%string = Some k_mu /\ cf !! "k_b"%string = Some k_b)
         /\ (kw_k_mu kwargs = None \/ kw_k_b kwargs = None ->
             cf !! "k_mu"%string = Some (VFloat 0.99)
             /\ cf !! "k_b"%string = Some (VFloat 0.5))
         /\ forall key,
              key ∉ host_attrs -> key <> "k_mu"%string ->
              key <> "k_b"%string -> key <> "curvature"%string ->
              cf !! key = cfg !! key.
Proof.
  split.
  - intros e He. unfold get_asymptote_config. cbv zeta. rewrite He. reflexivity.
  - intros cfg Hinit.
    destruct (Config_init_attrs _ _ _ cfg Hinit) as [Hattrs _].
    destruct (delattr_each_frame host_attrs cfg host_attrs_NoDup)
      as (cfg' & Hrun & Hgone & Hkept).
    { intros key Hkey. apply Hattrs.
      apply list_elem_of_In in Hkey. apply list_elem_of_In.
      cbn [In host_attrs] in *. intuition. }
    unfold get_asymptote_config. cbv zeta. rewrite Hinit.
    cbn [mbind result_bind].
    unfold Config.remove_host_attrs, remove_host_attrs_from_config.
    rewrite Hrun. cbn [mbind result_bind].
    destruct (kw_k_mu kwargs) as [m|] eqn:Hm, (kw_k_b kwargs) as [b|] eqn:Hb;
      eexists; (split; [reflexivity|]);
      (split; [|split; [|split; [|split]]]).
    all: try (intros key Hkey; unfold getattr;
              rewrite !lookup_insert_ne, (Hgone key Hkey);
              [reflexivity|..];
              intros <-; revert Hkey;
              apply (bool_decide_unpack _); vm_compute; exact I).
    all: try (apply lookup_insert_eq).
    all: try (intros k_mu k_b Hk1 Hk2; try discriminate;
              injection Hk1 as <-; injection Hk2 as <-;
              split; attr_lookup; reflexivity).
    all: try (intros [Hn|Hn]; try discriminate;
              split; attr_lookup; reflexivity).
    all: intros key Hk H1 H2 H3;
      rewrite !lookup_insert_ne by congruence; apply Hkept, Hk.
Qed.

Lemma get_asymptote_config_attrs_witness :
  exists cf : gmap string pyval,
    get_asymptote_config consts_example fit_example
      {| kw_config := args_example; kw_verbose := None;
         kw_k_mu := Some (VFloat 0.9); kw_k_b := None;
         kw_curvature := None |} = Ok cf
    /\ cf !! "k_mu"%string = Some (VFloat 0.99)
    /\ cf !! "curvature"%string = Some (VInt 10).
Proof.
  destruct Config_init_example as [cfg Hcfg].
  destruct (get_asymptote_config_attrs consts_example fit_example
              {| kw_config := args_example; kw_verbose := None;
                 kw_k_mu := Some (VFloat 0.9); kw_k_b := None;
                 kw_curvature := None |}) as [_ H].
  destruct (H cfg Hcfg) as (cf & Hcf & _ & Hcurv & _ & Hdef & _).
  exists cf. split; [exact Hcf|]. split; [|exact Hcurv].
  apply Hdef. right. reflexivity.
Defined.
